(** * PLS-SB regression ([regressions/pls_sb.py]): fitting and prediction

    A shallow embedding of the class [PLS_SB]: its constructor (the model
    fitter) and its two prediction methods, together with the properties
    the specification states about them.

    Conventions.
    - numpy's floating-point scalars are idealised by an exact field
      (class [Scalar]); the rationals [Qc] are the executable instance;
    - a 2-D [ndarray] is a record of its column count and its rows, so
      that [shape] is available also when there are no rows;
    - the constructor runs in a state-and-error monad over a store of
      array objects (the caller's [X] and [Y] are references into it) and
      a log of the calls made into the linear-algebra layer;
    - [linalg.eigh], [linalg.inv], the square root behind
      [np.linalg.norm] and the contents of [np.empty] belong to the
      library the module imports: they are the fields of [linalg]. *)

From Stdlib Require Import ZArith QArith Qcanon Ring Field Lia String.
From stdpp Require Import base option list gmap.

(** ** Scalars

    A field with an order. The field laws say nothing about [x / 0]; IEEE
    arithmetic gives [inf] or [nan] there, and the properties below that
    depend on a division assume the divisor is not 0. *)

Class Scalar := MkScalar {
  F : Type;
  f0 : F;
  f1 : F;
  fadd : F -> F -> F;
  fmul : F -> F -> F;
  fsub : F -> F -> F;
  fopp : F -> F;
  fdiv : F -> F -> F;
  finv : F -> F;
  fle : F -> F -> Prop;
  F_field : field_theory f0 f1 fadd fmul fsub fopp fdiv finv (@eq F)
}.

Declare Scope F_scope.
Delimit Scope F_scope with F.
Notation "x + y" := (fadd x y) : F_scope.
Notation "x * y" := (fmul x y) : F_scope.
Notation "x - y" := (fsub x y) : F_scope.
Notation "x / y" := (fdiv x y) : F_scope.
Notation "- x" := (fopp x) : F_scope.

(** The exact rationals: the instance on which the definitions run. *)
#[export] Instance Qc_Scalar : Scalar :=
  MkScalar Qc 0%Qc 1%Qc Qcplus Qcmult Qcminus Qcopp Qcdiv Qcinv Qcle Qcft.

(** ** Arrays *)

Section Arrays.
Context {Sc : Scalar}.

Definition vec := list F.

(** A 2-D array of shape [(length rows, ncols)]. *)
Record ndarray2 := Arr2 { ncols : nat; rows : list vec }.

Definition shape0 (A : ndarray2) : nat := length (rows A).
Definition shape1 (A : ndarray2) : nat := ncols A.

Definition wf2 (A : ndarray2) : Prop :=
  Forall (fun r => length r = ncols A) (rows A).

(** What a reference can point to: a 1-D or a 2-D array. *)
Inductive ndarray :=
  | A1 (v : vec)
  | A2 (A : ndarray2).

(** [float(n)] *)
Fixpoint fnat (n : nat) : F :=
  match n with
  | O => f0
  | S k => (fnat k + f1)%F
  end.

Definition fsum (v : vec) : F := foldr fadd f0 v.

(** Elementwise operations on 1-D arrays of equal length. *)
Definition vadd (u v : vec) : vec := zip_with fadd u v.
Definition vsub (u v : vec) : vec := zip_with fsub u v.
Definition vdiv (u v : vec) : vec := zip_with fdiv u v.
Definition vscale (c : F) (v : vec) : vec := map (fmul c) v.

(** [u @ v] on two 1-D arrays. *)
Definition dot (u v : vec) : F := fsum (zip_with fmul u v).

(** [A[:, j]] *)
Definition col (A : ndarray2) (j : nat) : vec :=
  map (fun r => nth j r f0) (rows A).

Definition cols (A : ndarray2) : list vec :=
  map (col A) (seq 0 (ncols A)).

(** [A.T] *)
Definition transpose (A : ndarray2) : ndarray2 :=
  Arr2 (shape0 A) (cols A).

(** [v @ B] for a 1-D [v]: one entry per column of [B]. *)
Definition vecmat (v : vec) (B : ndarray2) : vec :=
  map (dot v) (cols B).

(** [A @ B] *)
Definition matmul (A B : ndarray2) : ndarray2 :=
  Arr2 (ncols B) (map (fun r => vecmat r B) (rows A)).

(** [A @ v] for a 1-D [v]. *)
Definition matvec (A : ndarray2) (v : vec) : vec :=
  map (fun r => dot r v) (rows A).

(** [A.mean(0)]: the mean of every column. *)
Definition mean0 (A : ndarray2) : vec :=
  map (fun c => (fsum c / fnat (shape0 A))%F) (cols A).

(** [A - v] and [A / v] with [v] broadcast over the rows. *)
Definition sub_rows (A : ndarray2) (v : vec) : ndarray2 :=
  Arr2 (ncols A) (map (fun r => vsub r v) (rows A)).
Definition div_rows (A : ndarray2) (v : vec) : ndarray2 :=
  Arr2 (ncols A) (map (fun r => vdiv r v) (rows A)).

(** [A.diagonal()] *)
Definition diagonal (A : ndarray2) : vec :=
  imap (fun i r => nth i r f0) (take (ncols A) (rows A)).

(** [np.diag(v)] for a 1-D [v]. *)
Definition diag (v : vec) : ndarray2 :=
  Arr2 (length v)
       (imap (fun i x => <[i := x]> (replicate (length v) f0)) v).

End Arrays.

(** ** Python slices *)

Local Open Scope Z_scope.

(** The indices selected by [start:stop:step] on a sequence of length
    [len], as CPython's [PySlice_AdjustIndices] computes them ([None] is
    an omitted bound; [step] is not 0). *)
Definition slice_clamp (len step : Z) (bound : option Z) (dflt : Z) : Z :=
  match bound with
  | None => dflt
  | Some b =>
      if b <? 0 then
        (if b + len <? 0 then (if step <? 0 then -1 else 0) else b + len)
      else if len <=? b then (if step <? 0 then len - 1 else len)
      else b
  end.

Definition slice_indices (start stop : option Z) (step : Z) (n : nat)
  : list nat :=
  let len := Z.of_nat n in
  let lo := slice_clamp len step start (if step <? 0 then len - 1 else 0) in
  let hi := slice_clamp len step stop (if step <? 0 then -1 else len) in
  let count :=
    if step <? 0
    then (if hi <? lo then (lo - hi - 1) / (- step) + 1 else 0)
    else (if lo <? hi then (hi - lo - 1) / step + 1 else 0) in
  map (fun i => Z.to_nat (lo + Z.of_nat i * step)) (seq 0 (Z.to_nat count)).

Local Close Scope Z_scope.

Section Slicing.
Context {Sc : Scalar}.

(** [A[:, start:stop:step]] *)
Definition slice_cols (A : ndarray2) (start stop : option Z) (step : Z)
  : ndarray2 :=
  let idx := slice_indices start stop step (ncols A) in
  Arr2 (length idx) (map (fun r => map (fun j => nth j r f0) idx) (rows A)).

End Slicing.

(** ** The store, the call log and the monad *)

Definition loc := positive.

(** Calls into the array and linear-algebra layer. *)
Inductive call :=
  | c_mean | c_sub | c_add | c_mul | c_div | c_matmul | c_transpose
  | c_eigh | c_slice | c_real | c_norm | c_diagonal | c_diag | c_inv
  | c_empty | c_getitem | c_setitem.

(** [ParameterError] is the module's own exception, [LinAlgError] the
    failure of [linalg.eigh] or [linalg.inv]; [BadReference] stands for a
    name that does not refer to an array of the expected dimension, which
    is outside the contract of the constructor. *)
Inductive error :=
  | ParameterError (msg : string)
  | LinAlgError
  | BadReference.

Inductive res (A : Type) :=
  | Ok (a : A)
  | Err (e : error).
Arguments Ok {A} a.
Arguments Err {A} e.

Section Monad.
Context {Sc : Scalar}.

Record state := State { store : gmap loc ndarray; log : list call }.

Definition M (A : Type) : Type := state -> res A * state.

Definition ret {A} (a : A) : M A := fun s => (Ok a, s).

Definition bind {A B} (m : M A) (k : A -> M B) : M B :=
  fun s =>
    match m s with
    | (Ok a, s') => k a s'
    | (Err e, s') => (Err e, s')
    end.

Definition raise {A} (e : error) : M A := fun s => (Err e, s).

(** Record a call into the library. *)
Definition tick (c : call) : M unit :=
  fun s => (Ok tt, State (store s) (log s ++ [c])).

(** A new array object. *)
Definition alloc (a : ndarray) : M loc :=
  fun s =>
    let l := fresh (dom (store s)) in
    (Ok l, State (<[l := a]> (store s)) (log s)).

(** Reading the 2-D (1-D) array a name refers to. *)
Definition get2 (l : loc) : M ndarray2 :=
  fun s =>
    match store s !! l with
    | Some (A2 A) => (Ok A, s)
    | _ => (Err BadReference, s)
    end.

Definition get1 (l : loc) : M vec :=
  fun s =>
    match store s !! l with
    | Some (A1 v) => (Ok v, s)
    | _ => (Err BadReference, s)
    end.

(** Overwriting an array object in place. *)
Definition put (l : loc) (a : ndarray) : M unit :=
  fun s => (Ok tt, State (<[l := a]> (store s)) (log s)).

End Monad.

Notation "'let*' x ':=' m 'in' k" := (bind m (fun x => k))
  (at level 10, x name, m at level 100, k at level 200).

(** ** The linear-algebra layer *)

Section Library.
Context {Sc : Scalar}.

(** What the module imports and does not define: [linalg.eigh] (eigenvalues
    and a matrix whose columns are the eigenvectors, or a failure),
    [linalg.inv] (the inverse, or the singular-matrix failure), the square
    root used by [np.linalg.norm], and the contents of the memory that
    [np.empty] hands out (by flat index). *)
Record linalg := Linalg {
  eigh : ndarray2 -> option (vec * ndarray2);
  inv : ndarray2 -> option ndarray2;
  sqrt : F -> F;
  uninit : nat -> F
}.

Variable L : linalg.

(** [np.linalg.norm(A, axis=0)] *)
Definition norm0 (A : ndarray2) : vec :=
  map (fun c => sqrt L (dot c c)) (cols A).

(** [np.empty(n)] and [np.empty((k, m))] *)
Definition empty1 (n : nat) : vec := map (uninit L) (seq 0 n).
Definition empty2 (k m : nat) : ndarray2 :=
  Arr2 m (map (fun i => map (fun j => uninit L (i * m + j)) (seq 0 m))
              (seq 0 k)).

(** The same operations as calls: each one is logged. *)
Definition np_mean0 (A : ndarray2) : M vec :=
  let* _ := tick c_mean in ret (mean0 A).
Definition np_sub_rows (A : ndarray2) (v : vec) : M ndarray2 :=
  let* _ := tick c_sub in ret (sub_rows A v).
Definition np_div_rows (A : ndarray2) (v : vec) : M ndarray2 :=
  let* _ := tick c_div in ret (div_rows A v).
Definition np_vadd (u v : vec) : M vec :=
  let* _ := tick c_add in ret (vadd u v).
Definition np_vsub (u v : vec) : M vec :=
  let* _ := tick c_sub in ret (vsub u v).
Definition np_vdiv (u v : vec) : M vec :=
  let* _ := tick c_div in ret (vdiv u v).
Definition np_vscale (c : F) (v : vec) : M vec :=
  let* _ := tick c_mul in ret (vscale c v).
Definition np_dot (u v : vec) : M F :=
  let* _ := tick c_matmul in ret (dot u v).
Definition np_vecmat (v : vec) (B : ndarray2) : M vec :=
  let* _ := tick c_matmul in ret (vecmat v B).
Definition np_matmul (A B : ndarray2) : M ndarray2 :=
  let* _ := tick c_matmul in ret (matmul A B).
Definition np_transpose (A : ndarray2) : M ndarray2 :=
  let* _ := tick c_transpose in ret (transpose A).
Definition np_slice_cols (A : ndarray2) (start stop : option Z) (step : Z)
  : M ndarray2 :=
  let* _ := tick c_slice in ret (slice_cols A start stop step).
(** [A.real] of a real array is the array. *)
Definition np_real (A : ndarray2) : M ndarray2 :=
  let* _ := tick c_real in ret A.
Definition np_norm0 (A : ndarray2) : M vec :=
  let* _ := tick c_norm in ret (norm0 A).
Definition np_diagonal (A : ndarray2) : M vec :=
  let* _ := tick c_diagonal in ret (diagonal A).
Definition np_diag (v : vec) : M ndarray2 :=
  let* _ := tick c_diag in ret (diag v).
Definition np_col (A : ndarray2) (j : nat) : M vec :=
  let* _ := tick c_getitem in ret (col A j).
Definition np_empty1 (n : nat) : M vec :=
  let* _ := tick c_empty in ret (empty1 n).
Definition np_empty2 (k m : nat) : M ndarray2 :=
  let* _ := tick c_empty in ret (empty2 k m).
Definition linalg_eigh (A : ndarray2) : M (vec * ndarray2) :=
  let* _ := tick c_eigh in
  match eigh L A with
  | Some r => ret r
  | None => raise LinAlgError
  end.
Definition linalg_inv (A : ndarray2) : M ndarray2 :=
  let* _ := tick c_inv in
  match inv L A with
  | Some r => ret r
  | None => raise LinAlgError
  end.

(** Binding a name to the array an expression produces. *)
Definition new1 (m : M vec) : M loc := let* v := m in alloc (A1 v).
Definition new2 (m : M ndarray2) : M loc := let* A := m in alloc (A2 A).

End Library.

(** ** The fitted model and the constructor *)

Definition msg_rows : string :=
  "X and Y data must have the same number of rows (data samples)".
Definition msg_components : string :=
  "Number of required components specified is impossible.".
Definition msg_variables : string :=
  "Data provided does not have the  same number of variables as the original X data".

Section Fit.
Context {Sc : Scalar}.
Variable L : linalg.

(** The attributes of a [PLS_SB] object. *)
Record model := Model {
  max_rank : nat;
  data_samples : nat;
  X_variables : nat;
  Y_variables : nat;
  components : Z;
  X_offset : vec;
  Y_offset : vec;
  W : ndarray2;
  T : ndarray2;
  Q : ndarray2;
  U : ndarray2;
  C : ndarray2;
  P : ndarray2;
  B : ndarray2
}.

(** [PLS_SB.__init__(self, X, Y, g)]. [X] and [Y] are the caller's array
    objects; every array a statement builds is a new object, and
    [self.Q /= ...] overwrites the object [self.Q] in place. The result
    is the object's attributes, read off the store on return. *)
Definition fit (lX lY : loc) (g : Z) : M model :=
  let* X := get2 lX in
  let* Y := get2 lY in
  if negb (shape0 X =? shape0 Y)%nat
  then raise (ParameterError msg_rows)
  else
  let* X := get2 lX in
  let max_rank := Nat.min (shape0 X) (shape1 X) in
  let data_samples := shape0 X in
  let X_variables := shape1 X in
  let* Y := get2 lY in
  let Y_variables := shape1 Y in
  if ((g <? 1) || (Z.of_nat max_rank <? g))%Z
  then raise (ParameterError msg_components)
  else
  let components := g in
  (* self.X_offset = X.mean(0) *)
  let* lX_offset := new1 (let* X := get2 lX in np_mean0 X) in
  (* Xc = X - self.X_offset *)
  let* lXc := new2 (let* X := get2 lX in
                    let* xo := get1 lX_offset in np_sub_rows X xo) in
  (* self.Y_offset = Y.mean(0) *)
  let* lY_offset := new1 (let* Y := get2 lY in np_mean0 Y) in
  (* Yc = Y - self.Y_offset *)
  let* lYc := new2 (let* Y := get2 lY in
                    let* yo := get1 lY_offset in np_sub_rows Y yo) in
  (* XtY = Xc.T @ Yc *)
  let* lXtY := new2 (let* Xc := get2 lXc in
                     let* XcT := np_transpose Xc in
                     let* Yc := get2 lYc in np_matmul XcT Yc) in
  (* ev, W = linalg.eigh(XtY @ XtY.T) *)
  let* XtY := get2 lXtY in
  let* XtYT := np_transpose XtY in
  let* A := np_matmul XtY XtYT in
  let* evW := linalg_eigh L A in
  let* lev := alloc (A1 (fst evW)) in
  let* lW0 := alloc (A2 (snd evW)) in
  (* self.W = W[:, :-g-1:-1].real *)
  let* lW := new2 (let* W0 := get2 lW0 in
                   let* Ws := np_slice_cols W0 None (Some (- g - 1)%Z) (-1)%Z in
                   np_real Ws) in
  (* self.T = Xc @ self.W *)
  let* lT := new2 (let* Xc := get2 lXc in
                   let* W := get2 lW in np_matmul Xc W) in
  (* self.Q = Yc.T @ self.T *)
  let* lQ := new2 (let* Yc := get2 lYc in
                   let* YcT := np_transpose Yc in
                   let* T := get2 lT in np_matmul YcT T) in
  (* self.Q /= np.linalg.norm(self.Q, axis=0) *)
  let* Q := get2 lQ in
  let* Q' := get2 lQ in
  let* n := np_norm0 L Q' in
  let* Qn := np_div_rows Q n in
  let* _ := put lQ (A2 Qn) in
  (* self.U = Yc @ self.Q *)
  let* lU := new2 (let* Yc := get2 lYc in
                   let* Q := get2 lQ in np_matmul Yc Q) in
  (* t_dot_t = (self.T.T @ self.T).diagonal() *)
  let* lt_dot_t := new1 (let* T := get2 lT in
                         let* TT := np_transpose T in
                         let* T' := get2 lT in
                         let* TtT := np_matmul TT T' in np_diagonal TtT) in
  (* self.C = np.diag((self.T.T @ self.U).diagonal() / t_dot_t) *)
  let* lC := new2 (let* T := get2 lT in
                   let* TT := np_transpose T in
                   let* U := get2 lU in
                   let* TtU := np_matmul TT U in
                   let* d := np_diagonal TtU in
                   let* tt := get1 lt_dot_t in
                   let* c := np_vdiv d tt in np_diag c) in
  (* self.P = (Xc.T @ self.T) / t_dot_t *)
  let* lP := new2 (let* Xc := get2 lXc in
                   let* XcT := np_transpose Xc in
                   let* T := get2 lT in
                   let* XtT := np_matmul XcT T in
                   let* tt := get1 lt_dot_t in np_div_rows XtT tt) in
  (* self.B = self.W @ linalg.inv(self.P.T @ self.W) @ self.C @ self.Q.T *)
  let* lB := new2 (let* W := get2 lW in
                   let* P := get2 lP in
                   let* PT := np_transpose P in
                   let* W' := get2 lW in
                   let* PtW := np_matmul PT W' in
                   let* R := linalg_inv L PtW in
                   let* WR := np_matmul W R in
                   let* C := get2 lC in
                   let* WRC := np_matmul WR C in
                   let* Q := get2 lQ in
                   let* QT := np_transpose Q in np_matmul WRC QT) in
  let* X_offset := get1 lX_offset in
  let* Y_offset := get1 lY_offset in
  let* W := get2 lW in
  let* T := get2 lT in
  let* Q := get2 lQ in
  let* U := get2 lU in
  let* C := get2 lC in
  let* P := get2 lP in
  let* B := get2 lB in
  ret (Model max_rank data_samples X_variables Y_variables components
             X_offset Y_offset W T Q U C P B).

End Fit.

(** ** The two prediction methods *)

Section Predict.
Context {Sc : Scalar}.
Variable L : linalg.

(** [for i in range(0, n): body], threading the variables the body
    assigns. *)
Fixpoint for_each {S : Type} (l : list nat) (body : nat -> S -> M S) (s : S)
  : M S :=
  match l with
  | [] => ret s
  | i :: l' => let* s' := body i s in for_each l' body s'
  end.

Definition for_range {S : Type} (n : nat) (body : nat -> S -> M S) (s : S)
  : M S :=
  for_each (seq 0 n) body s.

(** [v.T] of a 1-D array is the array. *)
Definition np_transpose1 (v : vec) : M vec :=
  let* _ := tick c_transpose in ret v.
(** [A[i, :]], [A[i, :] = v], [t[j]] and [t[j] = x] *)
Definition np_row (A : ndarray2) (i : nat) : M vec :=
  let* _ := tick c_getitem in ret (nth i (rows A) []).
Definition np_setrow (A : ndarray2) (i : nat) (v : vec) : M ndarray2 :=
  let* _ := tick c_setitem in ret (Arr2 (ncols A) (<[i := v]> (rows A))).
Definition np_item (t : vec) (j : nat) : M F :=
  let* _ := tick c_getitem in ret (nth j t f0).
Definition np_setitem (t : vec) (j : nat) (x : F) : M vec :=
  let* _ := tick c_setitem in ret (<[j := x]> t).

(** [self.Y_offset + (z - self.X_offset).T @ self.B] *)
Definition predict_row (m : model) (z : vec) : M vec :=
  let* d := np_vsub z (X_offset m) in
  let* dT := np_transpose1 d in
  let* y := np_vecmat dT (B m) in
  np_vadd (Y_offset m) y.

(** [PLS_SB.prediction(self, Z)] *)
Definition prediction (m : model) (Z : ndarray) : M ndarray :=
  match Z with
  | A1 z =>
      if negb (length z =? X_variables m)%nat
      then raise (ParameterError msg_variables)
      else
        let* r := predict_row m z in ret (A1 r)
  | A2 Z =>
      if negb (shape1 Z =? X_variables m)%nat
      then raise (ParameterError msg_variables)
      else
        let* result := np_empty2 L (shape0 Z) (Y_variables m) in
        let* result :=
          for_range (shape0 Z)
            (fun i result =>
               let* z := np_row Z i in
               let* r := predict_row m z in
               np_setrow result i r)
            result in
        ret (A2 result)
  end.

(** The body of the loop over the components, on the variables [t] and
    [x_j]:
    [t[j] = x_j @ self.W[:, j]; x_j = x_j - t[j] * self.P[:, j]] *)
Definition deflate (m : model) (j : nat) (tx : vec * vec) : M (vec * vec) :=
  let '(t, x_j) := tx in
  let* w := np_col (W m) j in
  let* s := np_dot x_j w in
  let* t := np_setitem t j s in
  let* tj := np_item t j in
  let* p := np_col (P m) j in
  let* tp := np_vscale tj p in
  let* x_j := np_vsub x_j tp in
  ret (t, x_j).

(** [self.Y_offset + t @ self.C @ self.Q.T] *)
Definition combine (m : model) (t : vec) : M vec :=
  let* tC := np_vecmat t (C m) in
  let* QT := np_transpose (Q m) in
  let* y := np_vecmat tC QT in
  np_vadd (Y_offset m) y.

(** [PLS_SB.prediction_iterative(self, Z)] *)
Definition prediction_iterative (m : model) (Z : ndarray) : M ndarray :=
  match Z with
  | A1 z =>
      if negb (length z =? X_variables m)%nat
      then raise (ParameterError msg_variables)
      else
        let* x_j := np_vsub z (X_offset m) in
        let* t := np_empty1 L (Z.to_nat (components m)) in
        let* tx := for_range (Z.to_nat (components m)) (deflate m) (t, x_j) in
        let* result := combine m (fst tx) in
        ret (A1 result)
  | A2 Z =>
      if negb (shape1 Z =? X_variables m)%nat
      then raise (ParameterError msg_variables)
      else
        let* result := np_empty2 L (shape0 Z) (Y_variables m) in
        let* t := np_empty1 L (Z.to_nat (components m)) in
        let* rt :=
          for_range (shape0 Z)
            (fun k rt =>
               let '(result, t) := rt in
               let* z := np_row Z k in
               let* x_j := np_vsub z (X_offset m) in
               let* tx :=
                 for_range (Z.to_nat (components m)) (deflate m) (t, x_j) in
               let* r := combine m (fst tx) in
               let* result := np_setrow result k r in
               ret (result, fst tx))
            (result, t) in
        ret (A2 (fst rt))
  end.

End Predict.

(** ** The values the constructor computes

    The same statements as in [fit], as functions of the contents of [X]
    and [Y]; [fit_eval] below shows that [fit] returns exactly this. *)

Section FitValue.
Context {Sc : Scalar}.
Variable L : linalg.

(** [Xc], [XtY] and the argument of [linalg.eigh] *)
Definition centred (A : ndarray2) : ndarray2 := sub_rows A (mean0 A).
Definition cross (X Y : ndarray2) : ndarray2 :=
  matmul (transpose (centred X)) (centred Y).
Definition eig_input (X Y : ndarray2) : ndarray2 :=
  matmul (cross X Y) (transpose (cross X Y)).

(** [self.W], [self.T], [self.Q] before and after [/=], [self.U],
    [t_dot_t], [self.C], [self.P] and the argument of [linalg.inv], from
    the eigenvector matrix [W0] *)
Definition weights (W0 : ndarray2) (g : Z) : ndarray2 :=
  slice_cols W0 None (Some (- g - 1)%Z) (-1)%Z.
Definition scores (X W : ndarray2) : ndarray2 := matmul (centred X) W.
Definition raw_loadings (Y T : ndarray2) : ndarray2 :=
  matmul (transpose (centred Y)) T.
Definition unit_loadings (Y T : ndarray2) : ndarray2 :=
  div_rows (raw_loadings Y T) (norm0 L (raw_loadings Y T)).
Definition y_scores (Y Q : ndarray2) : ndarray2 := matmul (centred Y) Q.
Definition t_dot_t (T : ndarray2) : vec := diagonal (matmul (transpose T) T).
Definition inner (T U : ndarray2) : ndarray2 :=
  diag (vdiv (diagonal (matmul (transpose T) U)) (t_dot_t T)).
Definition x_loadings (X T : ndarray2) : ndarray2 :=
  div_rows (matmul (transpose (centred X)) T) (t_dot_t T).
Definition PtW (X W : ndarray2) : ndarray2 :=
  matmul (transpose (x_loadings X (scores X W))) W.

Definition fit_value (X Y : ndarray2) (g : Z) : res model :=
  if negb (shape0 X =? shape0 Y)%nat
  then Err (ParameterError msg_rows)
  else if ((g <? 1) || (Z.of_nat (Nat.min (shape0 X) (shape1 X)) <? g))%Z
  then Err (ParameterError msg_components)
  else
    match eigh L (eig_input X Y) with
    | None => Err LinAlgError
    | Some evW =>
        let W := weights (snd evW) g in
        let T := scores X W in
        let Q := unit_loadings Y T in
        let U := y_scores Y Q in
        let C := inner T U in
        let P := x_loadings X T in
        match inv L (PtW X W) with
        | None => Err LinAlgError
        | Some R =>
            Ok (Model (Nat.min (shape0 X) (shape1 X)) (shape0 X) (shape1 X)
                      (shape1 Y) g (mean0 X) (mean0 Y) W T Q U C P
                      (matmul (matmul (matmul W R) C) (transpose Q)))
        end
    end.

(** A model is fitted when the constructor returned it. *)
Definition fitted (m : model) : Prop :=
  exists (s : state) (lX lY : loc) (g : Z) (s' : state),
    fit L lX lY g s = (Ok m, s').

End FitValue.

(** [m] returns [a], whatever the store and the log are. *)
Definition returns {Sc : Scalar} {A : Type} (m : M A) (a : A) : Prop :=
  forall s, (m s).1 = Ok a.

(** The eigensolver's contract at a matrix [A]: one eigenvalue per row of
    [A], in ascending order, and column [k] of [W0] an eigenvector of [A]
    for [ev[k]]. *)
Definition eigh_spec {Sc : Scalar} (A : ndarray2) (ev : vec) (W0 : ndarray2)
  : Prop :=
  length ev = shape0 A /\
  ncols W0 = shape0 A /\
  (forall i j, (i <= j)%nat -> (j < length ev)%nat ->
     fle (nth i ev f0) (nth j ev f0)) /\
  (forall k, (k < length ev)%nat ->
     matvec A (col W0 k) = vscale (nth k ev f0) (col W0 k)).

(** The shapes of the data model: [W] is p x g, [T] and [U] are N x g,
    [Q] is m x g, [C] is g x g, [P] is p x g and [B] is p x m. *)
Definition has_shape {Sc : Scalar} (A : ndarray2) (n c : nat) : Prop :=
  shape0 A = n /\ shape1 A = c /\ wf2 A.

Definition model_shapes {Sc : Scalar} (m : model) : Prop :=
  let N := data_samples m in
  let p := X_variables m in
  let k := Y_variables m in
  let g := Z.to_nat (components m) in
  max_rank m = Nat.min N p /\
  length (X_offset m) = p /\ length (Y_offset m) = k /\
  has_shape (W m) p g /\ has_shape (T m) N g /\ has_shape (Q m) k g /\
  has_shape (U m) N g /\ has_shape (C m) g g /\ has_shape (P m) p g /\
  has_shape (B m) p k.

(** ** The values the prediction methods compute *)

Section PredictValue.
Context {Sc : Scalar}.

(** The direct form as the specification writes it, entry by entry:
    [y = Y_offset + (z - X_offset)ᵗ · B]. *)
Definition affine (m : model) (z : vec) : vec :=
  map (fun j =>
         (nth j (Y_offset m) f0 + dot (vsub z (X_offset m)) (col (B m) j))%F)
      (seq 0 (Y_variables m)).

(** The value of one round of the loop over the components, on the pair
    of [t] and [x_j]. *)
Definition round (m : model) (tx : vec * vec) (j : nat) : vec * vec :=
  (<[j := dot tx.2 (col (W m) j)]> tx.1,
   vsub tx.2 (vscale (nth j (<[j := dot tx.2 (col (W m) j)]> tx.1) f0)
                     (col (P m) j))).

(** What [n] rounds of the loop over the components leave in [t[0:n]] and
    in [x_j], from the residual [x] they start with. *)
Fixpoint deflated (m : model) (n : nat) (x : vec) : vec * vec :=
  match n with
  | O => ([], x)
  | S k =>
      let '(ts, xk) := deflated m k x in
      let s := dot xk (col (W m) k) in
      (ts ++ [s], vsub xk (vscale s (col (P m) k)))
  end.

(** The iterative form on one row:
    [Y_offset + t @ C @ Q.T] for the scores [t] of [z - X_offset]. *)
Definition iterative (m : model) (z : vec) : vec :=
  let t := (deflated m (Z.to_nat (components m)) (vsub z (X_offset m))).1 in
  vadd (Y_offset m) (vecmat (vecmat t (C m)) (transpose (Q m))).

End PredictValue.

(** ** Entries and the identity matrix *)

(** [A[i, j]] *)
Definition entry {Sc : Scalar} (A : ndarray2) (i j : nat) : F :=
  nth j (nth i (rows A) []) f0.


(** ** An executable library over the rationals

    Exact stand-ins for the imported routines, on which the constructor
    and the prediction methods run: the eigensolver handles diagonal
    matrices (eigenvalues ascending, eigenvectors the matching unit
    vectors), the inverse handles 1 x 1 and 2 x 2 matrices, and the square
    root is exact on squares of rationals. *)

Module Exact.

Definition qz (z : Z) : Qc := Q2Qc (inject_Z z).

Definition is_zero (x : Qc) : bool := Qeq_bool x 0.

Definition is_diagonal (A : ndarray2) : bool :=
  (shape0 A =? shape1 A)%nat &&
  forallb (fun ir : nat * vec =>
             ((length ir.2 =? ncols A)%nat &&
              forallb (fun jx : nat * Qc => (ir.1 =? jx.1)%nat || is_zero jx.2)
                      (imap pair ir.2))%bool)
          (imap pair (rows A)).

Fixpoint insert_sorted (x : nat * Qc) (l : list (nat * Qc)) : list (nat * Qc) :=
  match l with
  | [] => [x]
  | y :: l' =>
      if Qle_bool x.2 y.2 then x :: l else y :: insert_sorted x l'
  end.

Definition sort_pairs (l : list (nat * Qc)) : list (nat * Qc) :=
  foldr insert_sorted [] l.

Definition unit_column (n : nat) (idx : list nat) : list vec :=
  map (fun i => map (fun k => if (i =? k)%nat then 1%Qc else 0%Qc) idx)
      (seq 0 n).

Definition eigh_diagonal (A : ndarray2) : option (vec * ndarray2) :=
  if is_diagonal A then
    let sorted := sort_pairs (imap pair (diagonal A)) in
    Some (map snd sorted,
          Arr2 (ncols A) (unit_column (ncols A) (map fst sorted)))
  else None.

Definition inv_small (A : ndarray2) : option ndarray2 :=
  match ncols A, rows A with
  | 1%nat, [[a]] =>
      if is_zero a then None else Some (Arr2 1 [[(1 / a)%Qc]])
  | 2%nat, [[a; b]; [c; d]] =>
      let det := (a * d - b * c)%Qc in
      if is_zero det then None
      else Some (Arr2 2 [[(d / det)%Qc; (- b / det)%Qc];
                         [(- c / det)%Qc; (a / det)%Qc]])
  | _, _ => None
  end.

Definition sqrt_exact (x : Qc) : Qc :=
  Q2Qc (Z.sqrt (Qnum x) # Pos.sqrt (Qden x)).

Definition lib : linalg :=
  Linalg eigh_diagonal inv_small sqrt_exact (fun i => qz (99 + Z.of_nat i)).

Definition arr (p : nat) (l : list (list Z)) : ndarray2 :=
  Arr2 p (map (map qz) l).

(** What an array holds, as plain fractions. *)
Definition show1 (v : vec) : list QArith_base.Q := map this v.
Definition show2 (A : ndarray2) : nat * list (list QArith_base.Q) :=
  (ncols A, map (map this) (rows A)).
Definition show (a : ndarray) : list (list QArith_base.Q) :=
  match a with
  | A1 v => [show1 v]
  | A2 A => (show2 A).2
  end.

(** A store holding the caller's [X] at 1 and [Y] at 2. *)
Definition caller (X Y : ndarray2) : state :=
  State (<[2%positive := A2 Y]> (<[1%positive := A2 X]> ∅)) [].

(** The calibration data of the examples: 3 samples, 2 + 2 variables. *)
Definition X3 : ndarray2 := arr 2 [[1; 0]; [0; 1]; [-1; -1]]%Z.
Definition Y3 : ndarray2 := arr 2 [[4; -1]; [-2; 2]; [-2; -1]]%Z.

(** The same [X] with a [Y] of two rows, with a constant [Y], and data
    without any sample. *)
Definition Y2 : ndarray2 := arr 2 [[4; -1]; [-2; 2]]%Z.
Definition Yconst : ndarray2 := arr 2 [[5; 7]; [5; 7]; [5; 7]]%Z.
Definition X0 : ndarray2 := arr 2 [].
Definition Y0 : ndarray2 := arr 1 [].

(** Inputs of the prediction methods: the first calibration row, a batch
    of three rows, a row that is too long and a batch without rows. *)
Definition z_row : vec := [qz 1; qz 0].
Definition Z_batch : ndarray2 := arr 2 [[1; 0]; [0; 1]; [5; 7]]%Z.
Definition z_long : vec := [qz 1; qz 0; qz 2].
Definition Z_wide : ndarray2 := arr 3 [[1; 0; 2]]%Z.
Definition Z_none : ndarray2 := arr 2 [].

Definition no_model : model :=
  Model 0 0 0 0 0 [] [] (Arr2 0 []) (Arr2 0 []) (Arr2 0 []) (Arr2 0 [])
        (Arr2 0 []) (Arr2 0 []) (Arr2 0 []).

Definition is_ok {A : Type} (r : res A) : bool :=
  match r with Ok _ => true | Err _ => false end.
Definition has_value {A : Type} (o : option A) : bool :=
  match o with Some _ => true | None => false end.

(** The model fitted to [X3] and [Y3] with two components, and the one
    fitted to [X3] and the constant [Y]. *)
Definition model3 : model :=
  match fit_value lib X3 Y3 2 with Ok m => m | Err _ => no_model end.
Definition model_const : model :=
  match fit_value lib X3 Yconst 2 with Ok m => m | Err _ => no_model end.

(** What the eigensolver and the inverse return while fitting [model3]. *)
Definition eig3 : vec * ndarray2 :=
  match eigh lib (eig_input X3 Y3) with
  | Some r => r
  | None => ([], Arr2 0 [])
  end.
Definition inv3 : ndarray2 :=
  match inv lib (PtW X3 (weights eig3.2 2)) with
  | Some R => R
  | None => Arr2 0 []
  end.


(** Calibration data with a single [X] variable and a single [Y]
    variable, and the model fitted to it with one component. *)
Definition X1v : ndarray2 := arr 1 [[1]; [0]; [-1]]%Z.
Definition Y1v : ndarray2 := arr 1 [[2]; [0]; [-2]]%Z.
Definition model1v : model :=
  match fit_value lib X1v Y1v 1 with Ok m => m | Err _ => no_model end.

End Exact.

(** No division by zero happened while [m] was fitted to [X] and [Y]: the
    means divide by the number of rows, [self.Q /= ...] by the norms of
    the columns of [Ycᵗ·T], and [C] and [P] by the diagonal of [TᵗT].
    (IEEE arithmetic answers a division by zero with [inf] or [nan], which
    then spread through [Q], [U], [C], [P] and [B].) *)
Definition nonzero_divisors {Sc : Scalar} (L : linalg) (X Y : ndarray2)
  (m : model) : Prop :=
  fnat (shape0 X) <> f0 /\
  forall j, (j < shape1 (T m))%nat ->
    sqrt L (dot (col (raw_loadings Y (T m)) j)
                (col (raw_loadings Y (T m)) j)) <> f0 /\
    dot (col (T m) j) (col (T m) j) <> f0.

(** The contract of the imported routines at the calls the constructor
    makes for [(X, Y, g)]: the eigensolver meets [eigh_spec], the norms
    are square roots, and the inverse is an inverse. *)
Definition library_contract {Sc : Scalar} (L : linalg) (X Y : ndarray2)
  (g : Z) : Prop :=
  exists ev W0 R,
    eigh L (eig_input X Y) = Some (ev, W0) /\
    eigh_spec (eig_input X Y) ev W0 /\
    (forall j, (j < ncols (raw_loadings Y (scores X (weights W0 g))))%nat ->
       let c := col (raw_loadings Y (scores X (weights W0 g))) j in
       (sqrt L (dot c c) * sqrt L (dot c c))%F = dot c c) /\
    inv L (PtW X (weights W0 g)) = Some R /\
    matmul R (PtW X (weights W0 g)) = diag (replicate (Z.to_nat g) f1).


(** The store invariant of a computation that leaves the objects of [h0]
    alone: they are still there afterwards, and its result satisfies
    [R]. *)
Definition keeps {Sc : Scalar} {A : Type} (h0 : gmap loc ndarray) (m : M A)
  (R : A -> Prop) : Prop :=
  forall s, h0 ⊆ store s ->
    h0 ⊆ store (m s).2 /\ forall a, (m s).1 = Ok a -> R a.

(** * Properties *)

(** ** The monad *)

Section MonadFacts.
Context {Sc : Scalar}.



Lemma bind_assoc {A B D} (m : M A) (k : A -> M B) (k' : B -> M D) s :
  bind (bind m k) k' s = bind m (fun a => bind (k a) k') s.
Proof. unfold bind. destruct (m s) as [[a|e] s1]; reflexivity. Qed.

Lemma bind_get2 {B} l (k : ndarray2 -> M B) s A :
  store s !! l = Some (A2 A) -> bind (get2 l) k s = k A s.
Proof. intros H. unfold bind, get2. rewrite H. reflexivity. Qed.

Lemma bind_get1 {B} l (k : vec -> M B) s v :
  store s !! l = Some (A1 v) -> bind (get1 l) k s = k v s.
Proof. intros H. unfold bind, get1. rewrite H. reflexivity. Qed.

Lemma get2_state l s : (get2 l s).2 = s.
Proof. unfold get2. destruct (store s !! l) as [[v|A]|]; reflexivity. Qed.

Lemma get1_state l s : (get1 l s).2 = s.
Proof. unfold get1. destruct (store s !! l) as [[v|A]|]; reflexivity. Qed.

(** *** Computations that leave a set of objects alone *)

Lemma keeps_ret {A} h0 (a : A) : keeps h0 (ret a) (fun _ => True).
Proof. intros s Hs. split; [exact Hs | trivial]. Qed.

Lemma keeps_raise {A} h0 e (R : A -> Prop) : keeps h0 (raise e) R.
Proof. intros s Hs. split; [exact Hs | discriminate]. Qed.

Lemma keeps_tick h0 c : keeps h0 (tick c) (fun _ => True).
Proof. intros s Hs. split; [exact Hs | trivial]. Qed.

Lemma keeps_get2 h0 l : keeps h0 (get2 l) (fun _ => True).
Proof. intros s Hs. rewrite get2_state. split; [exact Hs | trivial]. Qed.

Lemma keeps_get1 h0 l : keeps h0 (get1 l) (fun _ => True).
Proof. intros s Hs. rewrite get1_state. split; [exact Hs | trivial]. Qed.

Lemma keeps_alloc h0 a : keeps h0 (alloc a) (fun l => h0 !! l = None).
Proof.
  intros s Hs. cbn.
  assert (Hfresh : store s !! fresh (dom (store s)) = None)
    by (apply not_elem_of_dom, is_fresh).
  assert (Hnew : h0 !! fresh (dom (store s)) = None).
  { destruct (h0 !! fresh (dom (store s))) as [b|] eqn:E; [|reflexivity].
    rewrite (lookup_weaken _ _ _ _ E Hs) in Hfresh. discriminate. }
  split.
  - apply insert_subseteq_r; assumption.
  - intros l [= <-]. exact Hnew.
Qed.

Lemma keeps_put h0 l a : h0 !! l = None -> keeps h0 (put l a) (fun _ => True).
Proof.
  intros Hl s Hs. cbn. split; [|trivial].
  apply insert_subseteq_r; assumption.
Qed.

Lemma keeps_bind {A B} h0 (m : M A) (k : A -> M B) R R' :
  keeps h0 m R -> (forall a, R a -> keeps h0 (k a) R') ->
  keeps h0 (bind m k) R'.
Proof.
  intros Hm Hk s Hs. destruct (Hm s Hs) as [Hs1 HR]. unfold bind.
  destruct (m s) as [[a|e] s1]; cbn in *.
  - apply Hk; [apply HR; reflexivity | exact Hs1].
  - split; [exact Hs1 | discriminate].
Qed.



End MonadFacts.

Create HintDb keeps.
#[export] Hint Resolve keeps_ret keeps_raise keeps_tick keeps_get2 keeps_get1
  keeps_alloc keeps_put : keeps.

(** One step through a computation whose objects are to be kept. *)
Ltac keeps_step :=
  lazymatch goal with
  | |- keeps _ (bind _ _) _ =>
      eapply keeps_bind; [ | intros ? ? ]
  | |- keeps _ (if ?b then _ else _) _ => destruct b
  | |- keeps _ (match ?x with Some _ => _ | None => _ end) _ => destruct x
  | |- keeps _ (let '(_, _) := ?x in _) _ => destruct x
  | |- keeps _ _ _ => solve [eauto with keeps]
  end.

Ltac keeps_auto := repeat keeps_step.

Section LibraryFacts.
Context {Sc : Scalar}.
Variable L : linalg.

Lemma keeps_new1 h0 (m : M vec) R :
  keeps h0 m R -> keeps h0 (new1 m) (fun l => h0 !! l = None).
Proof.
  intros H. unfold new1.
  eapply keeps_bind; [exact H | intros; apply keeps_alloc].
Qed.

Lemma keeps_new2 h0 (m : M ndarray2) R :
  keeps h0 m R -> keeps h0 (new2 m) (fun l => h0 !! l = None).
Proof.
  intros H. unfold new2.
  eapply keeps_bind; [exact H | intros; apply keeps_alloc].
Qed.

End LibraryFacts.

(** ** The constructor and the caller's arrays *)

Section FitFrame.
Context {Sc : Scalar}.
Variable L : linalg.

Ltac keeps_lib :=
  repeat first
    [ progress keeps_step
    | eapply keeps_new1
    | eapply keeps_new2
    | progress unfold np_mean0, np_sub_rows, np_div_rows, np_vdiv,
        np_matmul, np_transpose, np_slice_cols, np_real, np_norm0,
        np_diagonal, np_diag, linalg_eigh, linalg_inv ].

Lemma fit_keeps h0 lX lY g : keeps h0 (fit L lX lY g) (fun _ => True).
Proof. unfold fit. keeps_lib. Qed.

End FitFrame.

Section FitInputs.
Context {Sc : Scalar}.
Variable L : linalg.

Lemma fit_bad_X lX lY g s :
  store s !! lX = None -> fit L lX lY g s = (Err BadReference, s).
Proof. intros H. unfold fit, bind, get2. rewrite H. reflexivity. Qed.

Lemma fit_bad_Y lX lY g s :
  store s !! lY = None -> (fit L lX lY g s).2 = s.
Proof.
  intros H. destruct (store s !! lX) as [[v|A]|] eqn:E.
  - unfold fit, bind at 1, get2 at 1. rewrite E. reflexivity.
  - unfold fit. rewrite (bind_get2 _ _ _ _ E).
    unfold bind at 1, get2 at 1. rewrite H. reflexivity.
  - rewrite (fit_bad_X _ _ _ _ E). reflexivity.
Qed.

(** C9. Whatever [X], [Y] and [g] are and whether the constructor returns
    a model or fails, the array objects [X] and [Y] hold afterwards what
    they held before; so does every other object that existed before the
    call (the arrays the constructor builds are new objects, and its one
    in-place update, [self.Q /= ...], hits one of them). *)
Theorem fit_leaves_X_and_Y_unchanged lX lY g s :
  store (fit L lX lY g s).2 !! lX = store s !! lX /\
  store (fit L lX lY g s).2 !! lY = store s !! lY /\
  store s ⊆ store (fit L lX lY g s).2.
Proof.
  assert (Hsub : store s ⊆ store (fit L lX lY g s).2)
    by (apply (fit_keeps L (store s) lX lY g s); reflexivity).
  repeat split; [ | | exact Hsub ].
  - destruct (store s !! lX) as [a|] eqn:E.
    + exact (lookup_weaken _ _ _ _ E Hsub).
    + rewrite (fit_bad_X _ _ _ _ E). exact E.
  - destruct (store s !! lY) as [a|] eqn:E.
    + exact (lookup_weaken _ _ _ _ E Hsub).
    + rewrite (fit_bad_Y _ _ _ _ E). exact E.
Qed.

(** C2. When [X] and [Y] differ in their number of rows, the constructor
    raises [ParameterError] and the state is the one it started in: no
    array was built and no call into the linear-algebra layer was logged,
    the eigendecomposition included. *)
Theorem fit_row_mismatch lX lY g s X Y :
  store s !! lX = Some (A2 X) ->
  store s !! lY = Some (A2 Y) ->
  shape0 X <> shape0 Y ->
  fit L lX lY g s = (Err (ParameterError msg_rows), s).
Proof.
  intros HX HY Hne. unfold fit.
  rewrite (bind_get2 _ _ _ _ HX), (bind_get2 _ _ _ _ HY).
  apply Nat.eqb_neq in Hne. rewrite Hne. reflexivity.
Qed.

End FitInputs.

(** ** Running the constructor *)

Section Exec.
Context {Sc : Scalar}.

Lemma bind_ret {A B} (a : A) (k : A -> M B) s : bind (ret a) k s = k a s.
Proof. reflexivity. Qed.

Lemma bind_tick {B} c (k : unit -> M B) s :
  bind (tick c) k s = k tt (State (store s) (log s ++ [c])).
Proof. reflexivity. Qed.

Lemma bind_put {B} l a (k : unit -> M B) s :
  bind (put l a) k s = k tt (State (<[l := a]> (store s)) (log s)).
Proof. reflexivity. Qed.

Lemma bind_raise {A B} e (k : A -> M B) s : bind (raise e) k s = (Err e, s).
Proof. reflexivity. Qed.

Lemma bind_alloc_fresh {B} a (k : loc -> M B) s :
  exists l, store s !! l = None /\
    bind (alloc a) k s = k l (State (<[l := a]> (store s)) (log s)).
Proof.
  exists (fresh (dom (store s))). split; [|reflexivity].
  apply not_elem_of_dom, is_fresh.
Qed.

Lemma lookup_insert_other (h : gmap loc ndarray) l l' a b :
  l <> l' -> h !! l' = Some b -> <[l := a]> h !! l' = Some b.
Proof. intros Hne H. rewrite lookup_insert_ne; assumption. Qed.

End Exec.

(** Symbolic execution of a computation on a store [h] of which the
    context knows some objects ([h !! l = Some a]). *)
Ltac exec_transfer h l a :=
  repeat match goal with
  | H : h !! ?li = Some ?ai |- _ =>
      let Hne := fresh "Hne" in
      first [ assert (Hne : l <> li) by (intros ->; congruence)
            | match goal with
              | Hd : l <> li |- _ => pose proof Hd as Hne
              | Hd : li <> l |- _ =>
                  assert (Hne : l <> li) by (intros E; apply Hd; symmetry; exact E)
              end ];
      apply (lookup_insert_other h l li a ai Hne) in H
  end.

Ltac exec_step :=
  lazymatch goal with
  | |- context [bind (bind _ _) _ _] => rewrite bind_assoc
  | |- context [bind (ret _) _ _] => rewrite bind_ret
  | |- context [bind (tick _) _ _] => rewrite bind_tick; cbn [store log]
  | |- context [bind (raise _) _ _] => rewrite bind_raise
  | |- context [bind (get2 ?l) ?k ?st] =>
      match goal with
      | H : _ !! l = Some (A2 ?A) |- _ => rewrite (bind_get2 l k st A H)
      end
  | |- context [bind (get1 ?l) ?k ?st] =>
      match goal with
      | H : _ !! l = Some (A1 ?v) |- _ => rewrite (bind_get1 l k st v H)
      end
  | |- context [bind (alloc ?a) ?k (State ?h ?lg)] =>
      let l := fresh "l" in
      let Hl := fresh "Hl" in
      let E := fresh "E" in
      let Hnew := fresh "Hnew" in
      let h1 := fresh "h" in
      let Eh := fresh "Eh" in
      destruct (bind_alloc_fresh a k (State h lg)) as (l & Hl & E);
      rewrite E; clear E; cbn [store log] in Hl |- *;
      exec_transfer h l a;
      pose proof (lookup_insert_eq h l a) as Hnew;
      clear Hl;
      remember (<[l := a]> h) as h1 eqn:Eh; clear Eh; try clear h
  | |- context [bind (put ?l ?a) ?k (State ?h ?lg)] =>
      let Hnew := fresh "Hnew" in
      let h1 := fresh "h" in
      let Eh := fresh "Eh" in
      rewrite (bind_put l a k (State h lg)); cbn [store log];
      match goal with H : h !! l = Some _ |- _ => clear H end;
      exec_transfer h l a;
      pose proof (lookup_insert_eq h l a) as Hnew;
      remember (<[l := a]> h) as h1 eqn:Eh; clear Eh; try clear h
  end.

Section FitEval.
Context {Sc : Scalar}.
Variable L : linalg.

Lemma fit_eval lX lY g s X Y :
  store s !! lX = Some (A2 X) ->
  store s !! lY = Some (A2 Y) ->
  (fit L lX lY g s).1 = fit_value L X Y g.
Proof.
  destruct s as [h lg]. cbn [store]. intros HX HY.
  unfold fit, fit_value.
  do 2 exec_step.
  destruct (negb (shape0 X =? shape0 Y)%nat); [reflexivity|].
  do 2 exec_step.
  destruct ((g <? 1)%Z || (Z.of_nat (Nat.min (shape0 X) (shape1 X)) <? g)%Z);
    [reflexivity|].
  unfold new1, new2, np_mean0, np_sub_rows, np_div_rows, np_vdiv,
    np_matmul, np_transpose, np_slice_cols, np_real, np_norm0,
    np_diagonal, np_diag, linalg_eigh, linalg_inv.
  unfold PtW, x_loadings, inner, t_dot_t, y_scores, unit_loadings,
    raw_loadings, scores, weights, eig_input, cross, centred.
  repeat exec_step.
  destruct (eigh L _) as [evW|]; [|reflexivity].
  repeat exec_step.
  destruct (inv L _) as [R|]; [|reflexivity].
  repeat exec_step.
  reflexivity.
Qed.

End FitEval.

(** ** Shapes and columns *)

Section Shapes.
Context {Sc : Scalar}.

Lemma length_cols (A : ndarray2) : length (cols A) = ncols A.
Proof. unfold cols. rewrite length_map, length_seq. reflexivity. Qed.

Lemma shape0_transpose (A : ndarray2) : shape0 (transpose A) = ncols A.
Proof. apply length_cols. Qed.

Lemma shape0_matmul (A B : ndarray2) : shape0 (matmul A B) = shape0 A.
Proof. unfold shape0, matmul. cbn. apply length_map. Qed.

Lemma shape0_sub_rows (A : ndarray2) v : shape0 (sub_rows A v) = shape0 A.
Proof. unfold shape0, sub_rows. cbn. apply length_map. Qed.

Lemma shape0_div_rows (A : ndarray2) v : shape0 (div_rows A v) = shape0 A.
Proof. unfold shape0, div_rows. cbn. apply length_map. Qed.

Lemma length_vecmat v (B : ndarray2) : length (vecmat v B) = ncols B.
Proof. unfold vecmat. rewrite length_map. apply length_cols. Qed.

Lemma wf2_matmul (A B : ndarray2) : wf2 (matmul A B).
Proof.
  unfold wf2, matmul. cbn. apply Forall_forall. intros r Hr.
  apply list_elem_of_In, in_map_iff in Hr. destruct Hr as (r0 & <- & _).
  apply length_vecmat.
Qed.

Lemma length_mean0 (A : ndarray2) : length (mean0 A) = ncols A.
Proof. unfold mean0. rewrite length_map. apply length_cols. Qed.

Lemma shape0_eig_input (X Y : ndarray2) : shape0 (eig_input X Y) = shape1 X.
Proof.
  unfold eig_input, cross, centred.
  rewrite !shape0_matmul, shape0_transpose. reflexivity.
Qed.

Lemma nth_map_lt {A B} (f : A -> B) (l : list A) (j : nat) (dA : A) (dB : B) :
  (j < length l)%nat -> nth j (map f l) dB = f (nth j l dA).
Proof.
  revert j. induction l as [|a l IH]; intros [|j] Hj; cbn in *;
    try lia; [reflexivity | apply IH; lia].
Qed.

(** Column [j] of [A[:, start:stop:step]] is the column of [A] that the
    slice selects at position [j]. *)
Lemma col_slice_cols (A : ndarray2) start stop step j :
  (j < length (slice_indices start stop step (ncols A)))%nat ->
  col (slice_cols A start stop step) j =
  col A (nth j (slice_indices start stop step (ncols A)) 0%nat).
Proof.
  intros Hj. unfold col, slice_cols. cbn. rewrite map_map.
  apply map_ext. intros r.
  exact (nth_map_lt (fun j => nth j r f0) _ j 0%nat f0 Hj).
Qed.

End Shapes.

(** ** The slice [:-g-1:-1] *)

Lemma slice_last_reversed (g : Z) (p : nat) :
  (1 <= g <= Z.of_nat p)%Z ->
  slice_indices None (Some (- g - 1)%Z) (-1)%Z p =
  map (fun i => (p - 1 - i)%nat) (seq 0 (Z.to_nat g)).
Proof.
  intros Hg. unfold slice_indices, slice_clamp.
  change (-1 <? 0)%Z with true. cbn match.
  assert (Hneg : (- g - 1 <? 0)%Z = true) by (apply Z.ltb_lt; lia).
  rewrite Hneg.
  destruct (- g - 1 + Z.of_nat p <? 0)%Z eqn:E1.
  - apply Z.ltb_lt in E1. assert (g = Z.of_nat p) by lia. subst g.
    assert (E2 : (-1 <? Z.of_nat p - 1)%Z = true) by (apply Z.ltb_lt; lia).
    rewrite E2.
    replace (Z.to_nat ((Z.of_nat p - 1 - -1 - 1) / - -1 + 1)) with p
      by (change (- -1)%Z with 1%Z; rewrite Z.div_1_r; lia).
    rewrite Nat2Z.id. apply map_ext_in. intros i Hi.
    apply in_seq in Hi. lia.
  - apply Z.ltb_ge in E1.
    assert (E2 : (- g - 1 + Z.of_nat p <? Z.of_nat p - 1)%Z = true)
      by (apply Z.ltb_lt; lia).
    rewrite E2.
    replace (Z.to_nat ((Z.of_nat p - 1 - (- g - 1 + Z.of_nat p) - 1) / - -1 + 1))
      with (Z.to_nat g)
      by (change (- -1)%Z with 1%Z; rewrite Z.div_1_r; lia).
    apply map_ext_in. intros i Hi. apply in_seq in Hi. lia.
Qed.

(** ** What the constructor returns *)

Section FitResult.
Context {Sc : Scalar}.
Variable L : linalg.

Lemma fit_value_ok X Y g m :
  fit_value L X Y g = Ok m ->
  shape0 X = shape0 Y /\
  (1 <= g <= Z.of_nat (Nat.min (shape0 X) (shape1 X)))%Z /\
  exists ev W0 R,
    eigh L (eig_input X Y) = Some (ev, W0) /\
    inv L (PtW X (weights W0 g)) = Some R /\
    m = Model (Nat.min (shape0 X) (shape1 X)) (shape0 X) (shape1 X)
              (shape1 Y) g (mean0 X) (mean0 Y)
              (weights W0 g)
              (scores X (weights W0 g))
              (unit_loadings L Y (scores X (weights W0 g)))
              (y_scores Y (unit_loadings L Y (scores X (weights W0 g))))
              (inner (scores X (weights W0 g))
                 (y_scores Y (unit_loadings L Y (scores X (weights W0 g)))))
              (x_loadings X (scores X (weights W0 g)))
              (matmul (matmul (matmul (weights W0 g) R)
                         (inner (scores X (weights W0 g))
                            (y_scores Y
                               (unit_loadings L Y (scores X (weights W0 g))))))
                      (transpose
                         (unit_loadings L Y (scores X (weights W0 g))))).
Proof.
  unfold fit_value.
  destruct (shape0 X =? shape0 Y)%nat eqn:E1; [|discriminate]. cbn [negb].
  destruct ((g <? 1)%Z || _) eqn:E2; [discriminate|].
  destruct (eigh L (eig_input X Y)) as [[ev W0]|]; [|discriminate].
  cbn [snd].
  destruct (inv L _) as [R|] eqn:E3; [|discriminate].
  intros [= <-].
  apply Nat.eqb_eq in E1. apply orb_false_iff in E2 as [E2 E2'].
  apply Z.ltb_ge in E2, E2'.
  split; [exact E1|]. split; [lia|].
  exists ev, W0, R. repeat split. exact E3.
Qed.

Lemma fit_ok_store lX lY g s m s' :
  fit L lX lY g s = (Ok m, s') ->
  exists X Y, store s !! lX = Some (A2 X) /\ store s !! lY = Some (A2 Y).
Proof.
  intros H. destruct (store s !! lX) as [[v|X]|] eqn:EX.
  - unfold fit, bind at 1, get2 at 1 in H. rewrite EX in H. discriminate.
  - destruct (store s !! lY) as [[v|Y]|] eqn:EY.
    + unfold fit in H. rewrite (bind_get2 _ _ _ _ EX) in H.
      unfold bind at 1, get2 at 1 in H. rewrite EY in H. discriminate.
    + eauto.
    + unfold fit in H. rewrite (bind_get2 _ _ _ _ EX) in H.
      unfold bind at 1, get2 at 1 in H. rewrite EY in H. discriminate.
  - rewrite (fit_bad_X _ _ _ _ _ EX) in H. discriminate.
Qed.

Lemma fit_ok_value lX lY g s m s' X Y :
  store s !! lX = Some (A2 X) ->
  store s !! lY = Some (A2 Y) ->
  fit L lX lY g s = (Ok m, s') ->
  fit_value L X Y g = Ok m.
Proof.
  intros HX HY H. rewrite <- (fit_eval L lX lY g s X Y HX HY), H.
  reflexivity.
Qed.

(** Failing the test of the component count leaves the state as it was. *)
Lemma fit_bad_components lX lY g s X Y :
  store s !! lX = Some (A2 X) ->
  store s !! lY = Some (A2 Y) ->
  shape0 X = shape0 Y ->
  (g < 1 \/ Z.of_nat (Nat.min (shape0 X) (shape1 X)) < g)%Z ->
  fit L lX lY g s = (Err (ParameterError msg_components), s).
Proof.
  intros HX HY HN Hg. unfold fit.
  rewrite (bind_get2 _ _ _ _ HX), (bind_get2 _ _ _ _ HY).
  apply Nat.eqb_eq in HN. rewrite HN. cbn [negb].
  rewrite (bind_get2 _ _ _ _ HX), (bind_get2 _ _ _ _ HY).
  assert (E : ((g <? 1) || (Z.of_nat (Nat.min (shape0 X) (shape1 X)) <? g))%Z
              = true).
  { apply orb_true_iff. destruct Hg; [left; apply Z.ltb_lt | right; apply Z.ltb_lt];
      assumption. }
  rewrite E. reflexivity.
Qed.

(** C3, as the code has it. With [max_rank = min(N, p)] and matching row
    counts: the constructor raises [ParameterError] whenever [g < 1] or
    [g > max_rank]; for [1 <= g <= max_rank] (so for [g = max_rank] when
    [max_rank >= 1]) it never raises [ParameterError], and it returns a
    model whenever the eigensolver and the inverse of [PtW] return. *)
Theorem fit_component_bounds lX lY g s X Y :
  store s !! lX = Some (A2 X) ->
  store s !! lY = Some (A2 Y) ->
  shape0 X = shape0 Y ->
  let max_rank := Nat.min (shape0 X) (shape1 X) in
  ((g < 1 \/ Z.of_nat max_rank < g)%Z ->
   fit L lX lY g s = (Err (ParameterError msg_components), s)) /\
  ((1 <= g <= Z.of_nat max_rank)%Z ->
   (forall msg, (fit L lX lY g s).1 <> Err (ParameterError msg)) /\
   (forall ev W0 R,
      eigh L (eig_input X Y) = Some (ev, W0) ->
      inv L (PtW X (weights W0 g)) = Some R ->
      exists m, (fit L lX lY g s).1 = Ok m)).
Proof.
  intros HX HY HN max_rank. split.
  - intros Hg. apply fit_bad_components with (X := X) (Y := Y); assumption.
  - intros Hg. rewrite (fit_eval L lX lY g s X Y HX HY). unfold fit_value.
    apply Nat.eqb_eq in HN. rewrite HN. cbn [negb].
    assert (E : ((g <? 1) || (Z.of_nat (Nat.min (shape0 X) (shape1 X)) <? g))%Z
                = false).
    { apply orb_false_iff. split; apply Z.ltb_ge; subst max_rank; lia. }
    rewrite E. split.
    + intros msg.
      destruct (eigh L (eig_input X Y)) as [evW|]; [|discriminate].
      cbv zeta. destruct (inv L _); discriminate.
    + intros ev W0 R Hev Hinv. rewrite Hev. cbv zeta. cbn [snd].
      rewrite Hinv. eexists. reflexivity.
Qed.

(** C4. When the eigensolver meets its contract at [S·Sᵗ] (eigenvalues
    ascending, column [k] an eigenvector for eigenvalue [k]), the fitted
    [W] has [g] columns; column [j] is the eigenvector returned for the
    eigenvalue at position [p-1-j], so an eigenvector of [S·Sᵗ] for it;
    these eigenvalues do not increase with [j]; and no eigenvalue left
    out exceeds a selected one. *)
Theorem fit_W_top_eigenvectors lX lY g s s' X Y m ev W0 :
  store s !! lX = Some (A2 X) ->
  store s !! lY = Some (A2 Y) ->
  fit L lX lY g s = (Ok m, s') ->
  eigh L (eig_input X Y) = Some (ev, W0) ->
  eigh_spec (eig_input X Y) ev W0 ->
  let p := length ev in
  let n := Z.to_nat g in
  shape1 (W m) = n /\ (1 <= n <= p)%nat /\
  (forall j, (j < n)%nat ->
     col (W m) j = col W0 (p - 1 - j) /\
     matvec (eig_input X Y) (col (W m) j) =
     vscale (nth (p - 1 - j) ev f0) (col (W m) j)) /\
  (forall j j', (j <= j')%nat -> (j' < n)%nat ->
     fle (nth (p - 1 - j') ev f0) (nth (p - 1 - j) ev f0)) /\
  (forall k j, (k < p - n)%nat -> (j < n)%nat ->
     fle (nth k ev f0) (nth (p - 1 - j) ev f0)).
Proof.
  intros HX HY Hfit Hev (Hlen & Hcols & Hasc & Hvec) p n.
  apply (fit_ok_value _ _ _ _ _ _ _ _ HX HY) in Hfit.
  apply fit_value_ok in Hfit as (HN & Hg & ev' & W0' & R & Hev' & _ & ->).
  rewrite Hev in Hev'. injection Hev' as <- <-.
  rewrite shape0_eig_input in Hlen, Hcols.
  assert (Hgp : (1 <= g <= Z.of_nat (ncols W0))%Z)
    by (rewrite Hcols; unfold shape1 in *; lia).
  assert (Hidx := slice_last_reversed g (ncols W0) Hgp).
  assert (Hp : p = ncols W0) by (subst p; congruence).
  cbn [W]. unfold weights.
  split; [|split; [|split; [|split]]].
  - unfold shape1, slice_cols. cbn [ncols]. rewrite Hidx.
    rewrite length_map, length_seq. reflexivity.
  - subst n. lia.
  - intros j Hj.
    assert (Hc : col (slice_cols W0 None (Some (- g - 1)%Z) (-1)%Z) j =
                 col W0 (p - 1 - j)).
    { rewrite col_slice_cols; rewrite Hidx.
      - rewrite (nth_map_lt _ _ _ 0%nat) by (rewrite length_seq; exact Hj).
        rewrite seq_nth by exact Hj. rewrite Hp. reflexivity.
      - rewrite length_map, length_seq. exact Hj. }
    split; [exact Hc|]. rewrite Hc. apply Hvec. subst n p. lia.
  - intros j j' Hjj Hj'. apply Hasc; subst n p; lia.
  - intros k j Hk Hj. apply Hasc; subst n p; lia.
Qed.

End FitResult.

(** ** Sums and products over the scalars *)

Section Algebra.
Context {Sc : Scalar}.

Add Field Ffield : F_field.

Lemma nth_zip_with (f : F -> F -> F) (u v : vec) (j : nat) :
  (j < length u)%nat -> (j < length v)%nat ->
  nth j (zip_with f u v) f0 = f (nth j u f0) (nth j v f0).
Proof.
  revert v j. induction u as [|a u IH]; intros [|b v] [|j] Hu Hv; cbn in *;
    try lia; [reflexivity | apply IH; lia].
Qed.


Lemma dot_cons a b (u v : vec) :
  dot (a :: u) (b :: v) = (a * b + dot u v)%F.
Proof. reflexivity. Qed.

(** Dividing a vector by [n <> 0] divides its squared norm by [n * n]. *)
Lemma dot_div_self (c : vec) (n : F) :
  n <> f0 ->
  dot (map (fun x => x / n)%F c) (map (fun x => x / n)%F c) =
  (dot c c / (n * n))%F.
Proof.
  intros Hn. induction c as [|a c IH].
  - cbn. unfold dot. cbn. field. exact Hn.
  - cbn [map]. rewrite !dot_cons, IH. field. exact Hn.
Qed.

Lemma unit_after_division (c : vec) (n : F) :
  (n * n)%F = dot c c -> dot c c <> f0 ->
  dot (map (fun x => x / n)%F c) (map (fun x => x / n)%F c) = f1.
Proof.
  intros Hn Hc.
  assert (Hn0 : n <> f0).
  { intros ->. apply Hc. rewrite <- Hn. ring. }
  rewrite dot_div_self by exact Hn0. rewrite <- Hn. field. exact Hn0.
Qed.

(** Column [j] of [A / v] is column [j] of [A] divided by [v[j]]. *)
Lemma col_div_rows (A : ndarray2) (v : vec) (j : nat) :
  wf2 A -> length v = ncols A -> (j < ncols A)%nat ->
  col (div_rows A v) j = map (fun x => x / nth j v f0)%F (col A j).
Proof.
  intros Hwf Hv Hj. unfold col, div_rows. cbn [rows]. rewrite !map_map.
  apply map_ext_in. intros r Hr.
  assert (Hlen : length r = ncols A).
  { unfold wf2 in Hwf. rewrite Forall_forall in Hwf.
    apply Hwf, list_elem_of_In, Hr. }
  unfold vdiv. apply nth_zip_with; lia.
Qed.

Lemma nth_norm0 (L : linalg) (A : ndarray2) (j : nat) :
  (j < ncols A)%nat ->
  nth j (norm0 L A) f0 = sqrt L (dot (col A j) (col A j)).
Proof.
  intros Hj. unfold norm0, cols. rewrite map_map.
  rewrite (nth_map_lt _ _ _ 0%nat) by (rewrite length_seq; exact Hj).
  rewrite seq_nth by exact Hj. reflexivity.
Qed.

Lemma length_norm0 (L : linalg) (A : ndarray2) : length (norm0 L A) = ncols A.
Proof. unfold norm0. rewrite length_map. apply length_cols. Qed.

End Algebra.

Section FitLoadings.
Context {Sc : Scalar}.
Variable L : linalg.

(** C5, as the code has it. [Q] is [Ycᵗ·T] with column [j] divided by the
    norm the library computes for it; whenever that norm is the square
    root of the column's sum of squares and this sum is not 0, the column
    of the fitted [Q] has sum of squares 1, that is, norm 1. *)
Theorem fit_Q_columns_unit lX lY g s s' X Y m j :
  store s !! lX = Some (A2 X) ->
  store s !! lY = Some (A2 Y) ->
  fit L lX lY g s = (Ok m, s') ->
  (j < shape1 (Q m))%nat ->
  let c := col (raw_loadings Y (T m)) j in
  let n := sqrt L (dot c c) in
  col (Q m) j = map (fun x => x / n)%F c /\
  ((n * n)%F = dot c c -> dot c c <> f0 ->
   dot (col (Q m) j) (col (Q m) j) = f1).
Proof.
  intros HX HY Hfit Hj c n.
  apply (fit_ok_value _ _ _ _ _ _ _ _ _ HX HY) in Hfit.
  apply fit_value_ok in Hfit as (_ & _ & ev & W0 & R & _ & _ & ->).
  cbn [Q T] in *. unfold unit_loadings in *.
  set (T0 := scores X (weights W0 g)) in *.
  assert (Hj' : (j < ncols (raw_loadings Y T0))%nat) by exact Hj.
  assert (Hcol : col (div_rows (raw_loadings Y T0) (norm0 L (raw_loadings Y T0))) j
                 = map (fun x => x / n)%F c).
  { rewrite col_div_rows.
    - rewrite nth_norm0 by exact Hj'. reflexivity.
    - apply wf2_matmul.
    - apply length_norm0.
    - exact Hj'. }
  split; [exact Hcol|].
  intros Hn Hc. rewrite Hcol. apply unit_after_division; assumption.
Qed.

End FitLoadings.

(** ** The shapes of a fitted model *)

Section ModelShapes.
Context {Sc : Scalar}.
Variable L : linalg.

Lemma has_shape_matmul (A B : ndarray2) :
  has_shape (matmul A B) (shape0 A) (ncols B).
Proof.
  split; [apply shape0_matmul|]. split; [reflexivity | apply wf2_matmul].
Qed.

Lemma length_vdiv (u v : vec) :
  length u = length v -> length (vdiv u v) = length u.
Proof. intros H. unfold vdiv. rewrite length_zip_with. lia. Qed.

Lemma has_shape_div_rows (A : ndarray2) (v : vec) :
  wf2 A -> length v = ncols A ->
  has_shape (div_rows A v) (shape0 A) (ncols A).
Proof.
  intros Hwf Hv. split; [apply shape0_div_rows|]. split; [reflexivity|].
  unfold wf2, div_rows in *. cbn [rows ncols]. rewrite Forall_forall in Hwf.
  apply Forall_forall. intros r Hr.
  apply list_elem_of_In, in_map_iff in Hr. destruct Hr as (r0 & <- & Hr0).
  rewrite length_vdiv; [|rewrite Hv]; apply Hwf, list_elem_of_In, Hr0.
Qed.

Lemma length_diagonal (A : ndarray2) :
  length (diagonal A) = Nat.min (ncols A) (shape0 A).
Proof. unfold diagonal. rewrite length_imap, length_take. reflexivity. Qed.

Lemma has_shape_diag (v : vec) : has_shape (diag v) (length v) (length v).
Proof.
  unfold has_shape, diag, shape0, shape1, wf2. cbn [rows ncols].
  split; [apply length_imap|]. split; [reflexivity|].
  apply Forall_forall. intros r Hr.
  apply list_elem_of_lookup in Hr as [i Hi].
  rewrite list_lookup_imap in Hi.
  apply fmap_Some in Hi as (x & _ & ->).
  rewrite length_insert, length_replicate. reflexivity.
Qed.

Lemma has_shape_weights (W0 : ndarray2) (g : Z) :
  (1 <= g <= Z.of_nat (ncols W0))%Z ->
  has_shape (weights W0 g) (shape0 W0) (Z.to_nat g).
Proof.
  intros Hg. unfold weights, slice_cols, has_shape, shape0, shape1, wf2.
  cbn [rows ncols]. rewrite slice_last_reversed by exact Hg.
  split; [apply length_map|].
  split; [rewrite length_map, length_seq; reflexivity|].
  apply Forall_forall. intros r Hr.
  apply list_elem_of_In, in_map_iff in Hr. destruct Hr as (r0 & <- & _).
  rewrite !length_map. reflexivity.
Qed.

(** A fitted model has the shapes of the data model, provided the
    eigensolver returns as many eigenvectors, of the same length, as its
    argument has rows. *)
Lemma fit_model_shapes lX lY g s s' X Y m ev W0 :
  store s !! lX = Some (A2 X) ->
  store s !! lY = Some (A2 Y) ->
  fit L lX lY g s = (Ok m, s') ->
  eigh L (eig_input X Y) = Some (ev, W0) ->
  shape0 W0 = shape1 X -> shape1 W0 = shape1 X ->
  model_shapes m.
Proof.
  intros HX HY Hfit Hev Hr Hc.
  apply (fit_ok_value _ _ _ _ _ _ _ _ _ HX HY) in Hfit.
  apply fit_value_ok in Hfit as (HN & Hg & ev' & W0' & R & Hev' & _ & ->).
  rewrite Hev in Hev'. injection Hev' as <- <-.
  assert (Hgp : (1 <= g <= Z.of_nat (ncols W0))%Z)
    by (unfold shape1 in *; rewrite Hc; lia).
  destruct (has_shape_weights W0 g Hgp) as (HW0 & HW1 & HWwf).
  unfold model_shapes.
  cbn [max_rank data_samples X_variables Y_variables components
       X_offset Y_offset W T Q U C P B].
  set (Wg := weights W0 g) in *. set (n := Z.to_nat g) in *.
  assert (HT : has_shape (scores X Wg) (shape0 X) n).
  { unfold scores. destruct (has_shape_matmul (centred X) Wg) as (H0 & H1 & H2).
    unfold centred in H0. rewrite shape0_sub_rows in H0.
    split; [exact H0|]. split; [rewrite H1; exact HW1 | exact H2]. }
  assert (HQ : has_shape (unit_loadings L Y (scores X Wg)) (shape1 Y) n).
  { unfold unit_loadings.
    destruct (has_shape_div_rows (raw_loadings Y (scores X Wg))
                (norm0 L (raw_loadings Y (scores X Wg)))
                (wf2_matmul _ _) (length_norm0 _ _)) as (H0 & H1 & H2).
    split; [|split; [|exact H2]].
    - rewrite H0. unfold raw_loadings, centred.
      rewrite shape0_matmul, shape0_transpose. reflexivity.
    - rewrite H1. unfold raw_loadings. cbn [matmul ncols].
      exact (proj1 (proj2 HT)). }
  assert (HU : has_shape (y_scores Y (unit_loadings L Y (scores X Wg)))
                 (shape0 X) n).
  { unfold y_scores.
    destruct (has_shape_matmul (centred Y) (unit_loadings L Y (scores X Wg)))
      as (H0 & H1 & H2).
    unfold centred in H0. rewrite shape0_sub_rows in H0.
    split; [etransitivity; [exact H0 | symmetry; exact HN]|].
    split; [rewrite H1; exact (proj1 (proj2 HQ)) | exact H2]. }
  assert (Htt : length (t_dot_t (scores X Wg)) = n).
  { unfold t_dot_t. rewrite length_diagonal, shape0_matmul, shape0_transpose.
    cbn [matmul ncols]. destruct HT as (_ & HT1 & _). unfold shape1 in HT1.
    rewrite HT1. lia. }
  split; [reflexivity|]. split; [apply length_mean0|].
  split; [apply length_mean0|].
  split; [split; [congruence | split; [exact HW1 | exact HWwf]]|].
  split; [exact HT|]. split; [exact HQ|]. split; [exact HU|].
  split; [|split].
  - unfold inner.
    assert (Hd : length (vdiv (diagonal (matmul (transpose (scores X Wg))
                    (y_scores Y (unit_loadings L Y (scores X Wg)))))
                    (t_dot_t (scores X Wg))) = n).
    { rewrite length_vdiv; rewrite length_diagonal, shape0_matmul,
        shape0_transpose; cbn [matmul ncols];
        destruct HT as (_ & HT1 & _), HU as (_ & HU1 & _);
        unfold shape1 in *; rewrite ?HT1, ?HU1, ?Htt; lia. }
    rewrite <- Hd at 1 2. apply has_shape_diag.
  - unfold x_loadings.
    destruct (has_shape_div_rows (matmul (transpose (centred X)) (scores X Wg))
                (t_dot_t (scores X Wg)) (wf2_matmul _ _)) as (H0 & H1 & H2).
    { cbn [matmul ncols]. rewrite Htt. symmetry. exact (proj1 (proj2 HT)). }
    split; [|split; [|exact H2]].
    + rewrite H0, shape0_matmul, shape0_transpose. reflexivity.
    + rewrite H1. cbn [matmul ncols]. exact (proj1 (proj2 HT)).
  - split; [|split; [|apply wf2_matmul]].
    + rewrite !shape0_matmul. congruence.
    + unfold shape1. cbn [matmul ncols transpose]. exact (proj1 HQ).
Qed.

End ModelShapes.

(** ** Results that do not depend on the state *)

Section Returns.
Context {Sc : Scalar}.

Lemma returns_ret {A} (a : A) : returns (ret a) a.
Proof. intros s. reflexivity. Qed.

Lemma returns_bind {A B} (m : M A) (k : A -> M B) a b :
  returns m a -> returns (k a) b -> returns (bind m k) b.
Proof.
  intros Hm Hk s. unfold bind. specialize (Hm s).
  destruct (m s) as [[a'|e] s1]; cbn in Hm; [|discriminate].
  injection Hm as ->. apply Hk.
Qed.

Lemma returns_tick c : returns (tick c) tt.
Proof. intros s. reflexivity. Qed.

Lemma returns_for_each {S} (body : nat -> S -> M S) (f : nat -> S -> S) l st :
  (forall i st, returns (body i st) (f i st)) ->
  returns (for_each l body st) (foldl (fun st i => f i st) st l).
Proof.
  intros Hb. revert st. induction l as [|i l IH]; intros st; cbn.
  - apply returns_ret.
  - eapply returns_bind; [apply Hb | apply IH].
Qed.


End Returns.

Section PredictFacts.
Context {Sc : Scalar}.
Variable L : linalg.


Lemma deflate_returns m j t x :
  returns (deflate m j (t, x))
    (<[j := dot x (col (W m) j)]> t,
     vsub x (vscale (nth j (<[j := dot x (col (W m) j)]> t) f0)
                    (col (P m) j))).
Proof. intros s. reflexivity. Qed.

Lemma combine_returns m t :
  returns (combine m t)
          (vadd (Y_offset m) (vecmat (vecmat t (C m)) (transpose (Q m)))).
Proof. intros s. reflexivity. Qed.

(** Filling the rows [0 .. n) of an array one after the other. *)
Lemma fill_rows {A B} (h : A -> B) (zs : list A) (d : A) (rs : list B) n :
  (n <= length zs)%nat -> length rs = length zs ->
  foldl (fun rs i => <[i := h (nth i zs d)]> rs) rs (seq 0 n) =
  map h (take n zs) ++ drop n rs.
Proof.
  intros Hn Hlen. induction n as [|n IH].
  - cbn. rewrite drop_0. reflexivity.
  - rewrite seq_S, foldl_app. cbn [foldl Nat.add]. rewrite IH by lia.
    assert (Hz : (n < length zs)%nat) by lia.
    destruct (lookup_lt_is_Some_2 zs n Hz) as [z Ez].
    destruct (lookup_lt_is_Some_2 rs n ltac:(lia)) as [r Er].
    rewrite (take_S_r _ _ _ Ez), map_app. cbn [map].
    rewrite (drop_S _ _ _ Er).
    rewrite insert_app_r_alt by (rewrite length_map, length_take; lia).
    rewrite length_map, length_take.
    replace (n - n `min` length zs)%nat with 0%nat by lia. cbn.
    rewrite <- app_assoc. cbn.
    rewrite (nth_lookup_Some _ _ _ _ Ez). reflexivity.
Qed.

Lemma fill_all_rows {A B} (h : A -> B) (zs : list A) (d : A) (rs : list B) :
  length rs = length zs ->
  foldl (fun rs i => <[i := h (nth i zs d)]> rs) rs (seq 0 (length zs)) =
  map h zs.
Proof.
  intros Hlen. rewrite fill_rows by lia.
  rewrite firstn_all, drop_ge by lia. apply app_nil_r.
Qed.

End PredictFacts.

Section PredictLoops.
Context {Sc : Scalar}.
Variable L : linalg.

Lemma length_deflated m n x : length (deflated m n x).1 = n.
Proof.
  induction n as [|n IH]; cbn; [reflexivity|].
  destruct (deflated m n x) as [ts xk]. cbn in *.
  rewrite length_app. cbn. lia.
Qed.

(** After [n] rounds the first [n] entries of [t] are the scores, whatever
    [t] held before; the rest of [t] is as it was. *)
Lemma rounds_deflated m n t x :
  (n <= length t)%nat ->
  foldl (round m) (t, x) (seq 0 n) =
  ((deflated m n x).1 ++ drop n t, (deflated m n x).2).
Proof.
  intros Hn. induction n as [|n IH].
  - cbn. rewrite drop_0. reflexivity.
  - rewrite seq_S, foldl_app. cbn [foldl Nat.add]. rewrite IH by lia.
    pose proof (length_deflated m n x) as Hlen.
    cbn [deflated]. destruct (deflated m n x) as [ts xk]. cbn [fst snd] in *.
    unfold round. cbn [fst snd].
    destruct (lookup_lt_is_Some_2 t n ltac:(lia)) as [r Er].
    rewrite (drop_S _ _ _ Er).
    assert (Hins : <[n := dot xk (col (W m) n)]> (ts ++ r :: drop (S n) t) =
                   (ts ++ [dot xk (col (W m) n)]) ++ drop (S n) t).
    { rewrite insert_app_r_alt by lia.
      replace (n - length ts)%nat with 0%nat by lia. cbn.
      rewrite <- app_assoc. reflexivity. }
    f_equal; [exact Hins|]. f_equal. f_equal.
    etransitivity;
      [exact (f_equal (fun l : list F => nth n l f0) Hins)|].
    rewrite <- app_assoc. cbn.
    rewrite app_nth2 by lia.
    replace (n - length ts)%nat with 0%nat by lia. reflexivity.
Qed.

Lemma deflate_loop_returns m t x :
  length t = Z.to_nat (components m) ->
  returns (for_range (Z.to_nat (components m)) (deflate m) (t, x))
          (deflated m (Z.to_nat (components m)) x).
Proof.
  intros Ht.
  assert (H : returns (for_range (Z.to_nat (components m)) (deflate m) (t, x))
                (foldl (round m) (t, x) (seq 0 (Z.to_nat (components m))))).
  { unfold for_range.
    apply (returns_for_each (deflate m) (fun j tx => round m tx j)).
    intros j [t' x']. apply deflate_returns. }
  rewrite rounds_deflated in H by lia.
  rewrite drop_ge, app_nil_r in H by lia.
  destruct (deflated m _ x). exact H.
Qed.

Lemma length_empty1 n : length (empty1 L n) = n.
Proof. unfold empty1. rewrite length_map, length_seq. reflexivity. Qed.


(** Writing the rows of the result one after the other. *)
Lemma setrows_fold (h : vec -> vec) (zs : list vec) c rs l :
  foldl (fun R i => Arr2 (ncols R) (<[i := h (nth i zs [])]> (rows R)))
        (Arr2 c rs) l =
  Arr2 c (foldl (fun rs i => <[i := h (nth i zs [])]> rs) rs l).
Proof.
  revert rs. induction l as [|i l IH]; intros rs; cbn; [reflexivity|].
  apply IH.
Qed.

Lemma setrows_all (h : vec -> vec) (Zb : ndarray2) c :
  foldl (fun R i => Arr2 (ncols R) (<[i := h (nth i (rows Zb) [])]> (rows R)))
        (empty2 L (shape0 Zb) c) (seq 0 (shape0 Zb)) =
  Arr2 c (map h (rows Zb)).
Proof.
  unfold empty2 at 1. rewrite setrows_fold. f_equal.
  apply fill_all_rows. rewrite length_map, length_seq. reflexivity.
Qed.

Lemma prediction_row_returns m z :
  length z = X_variables m ->
  returns (prediction L m (A1 z))
          (A1 (vadd (Y_offset m) (vecmat (vsub z (X_offset m)) (B m)))).
Proof.
  intros Hz s. unfold prediction. apply Nat.eqb_eq in Hz. rewrite Hz.
  reflexivity.
Qed.

Lemma prediction_batch_returns m (Zb : ndarray2) :
  shape1 Zb = X_variables m ->
  returns (prediction L m (A2 Zb))
    (A2 (Arr2 (Y_variables m)
           (map (fun z => vadd (Y_offset m) (vecmat (vsub z (X_offset m)) (B m)))
                (rows Zb)))).
Proof.
  intros Hz. unfold prediction. apply Nat.eqb_eq in Hz. rewrite Hz. cbn [negb].
  eapply returns_bind; [intros s; reflexivity|].
  eapply returns_bind.
  - unfold for_range.
    apply (returns_for_each _
             (fun i R =>
                Arr2 (ncols R)
                  (<[i := vadd (Y_offset m)
                            (vecmat (vsub (nth i (rows Zb) []) (X_offset m)) (B m))]>
                     (rows R)))).
    intros i R s. reflexivity.
  - rewrite (setrows_all
               (fun z => vadd (Y_offset m) (vecmat (vsub z (X_offset m)) (B m)))).
    apply returns_ret.
Qed.

Lemma prediction_iterative_row_returns m z :
  length z = X_variables m ->
  returns (prediction_iterative L m (A1 z)) (A1 (iterative m z)).
Proof.
  intros Hz. unfold prediction_iterative. apply Nat.eqb_eq in Hz. rewrite Hz.
  cbn [negb].
  eapply returns_bind; [intros s; reflexivity|].
  eapply returns_bind; [intros s; reflexivity|].
  eapply returns_bind; [apply deflate_loop_returns, length_empty1|].
  eapply returns_bind; [apply combine_returns|].
  apply returns_ret.
Qed.

(** The rows of a batch, one after the other, with [t] handed from one row
    to the next. *)
Lemma iterative_rows_fold m (zs : list vec) l R t :
  length t = Z.to_nat (components m) ->
  exists t',
    length t' = Z.to_nat (components m) /\
    foldl (fun (Rt : ndarray2 * vec) k =>
             let tx := foldl (round m) (Rt.2, vsub (nth k zs []) (X_offset m))
                             (seq 0 (Z.to_nat (components m))) in
             (Arr2 (ncols Rt.1)
                   (<[k := vadd (Y_offset m)
                             (vecmat (vecmat tx.1 (C m)) (transpose (Q m)))]>
                      (rows Rt.1)),
              tx.1))
          (R, t) l =
    (foldl (fun R k => Arr2 (ncols R) (<[k := iterative m (nth k zs [])]> (rows R)))
           R l, t').
Proof.
  revert R t. induction l as [|k l IH]; intros R t Ht; cbn [foldl].
  - exists t. split; [exact Ht | reflexivity].
  - cbn [fst snd]. rewrite rounds_deflated by lia.
    rewrite drop_ge, app_nil_r by lia. cbn [fst].
    apply IH. apply length_deflated.
Qed.

Lemma prediction_iterative_batch_returns m (Zb : ndarray2) :
  shape1 Zb = X_variables m ->
  returns (prediction_iterative L m (A2 Zb))
          (A2 (Arr2 (Y_variables m) (map (iterative m) (rows Zb)))).
Proof.
  intros Hz. unfold prediction_iterative. apply Nat.eqb_eq in Hz. rewrite Hz.
  cbn [negb].
  eapply returns_bind; [intros s; reflexivity|].
  eapply returns_bind; [intros s; reflexivity|].
  eapply returns_bind.
  - unfold for_range.
    apply (returns_for_each _
             (fun k (Rt : ndarray2 * vec) =>
                let tx := foldl (round m)
                                (Rt.2, vsub (nth k (rows Zb) []) (X_offset m))
                                (seq 0 (Z.to_nat (components m))) in
                (Arr2 (ncols Rt.1)
                      (<[k := vadd (Y_offset m)
                                (vecmat (vecmat tx.1 (C m)) (transpose (Q m)))]>
                         (rows Rt.1)),
                 tx.1))).
    intros k [R t].
    eapply returns_bind; [intros s; reflexivity|].
    eapply returns_bind; [intros s; reflexivity|].
    eapply returns_bind.
    { unfold for_range.
      apply (returns_for_each (deflate m) (fun j tx => round m tx j)).
      intros j [t' x']. apply deflate_returns. }
    eapply returns_bind; [apply combine_returns|].
    eapply returns_bind; [intros s; reflexivity|].
    apply returns_ret.
  - destruct (iterative_rows_fold m (rows Zb) (seq 0 (shape0 Zb))
                (empty2 L (shape0 Zb) (Y_variables m))
                (empty1 L (Z.to_nat (components m)))
                (length_empty1 _)) as (t' & _ & E).
    intros s. unfold ret. cbn [fst]. f_equal. f_equal.
    etransitivity; [exact (f_equal fst E)|].
    cbn [fst]. apply (setrows_all (iterative m)).
Qed.

End PredictLoops.

(** ** The prediction methods *)

Section PredictTheorems.
Context {Sc : Scalar}.
Variable L : linalg.

(** The shapes of a fitted model that the prediction methods rely on. *)
Lemma fitted_shapes m :
  fitted L m ->
  length (X_offset m) = X_variables m /\
  length (Y_offset m) = Y_variables m /\
  ncols (B m) = Y_variables m /\
  (1 <= components m)%Z.
Proof.
  intros (s & lX & lY & g & s' & Hfit).
  destruct (fit_ok_store _ _ _ _ _ _ _ Hfit) as (X & Y & HX & HY).
  apply (fit_ok_value _ _ _ _ _ _ _ _ _ HX HY) in Hfit.
  apply fit_value_ok in Hfit as (_ & Hg & ev & W0 & R & _ & _ & ->).
  cbn [X_offset Y_offset X_variables Y_variables B components].
  repeat split; try lia.
  - apply length_mean0.
  - apply length_mean0.
  - unfold matmul at 1. cbn [ncols]. unfold transpose. cbn [ncols].
    unfold unit_loadings. rewrite shape0_div_rows. unfold raw_loadings.
    rewrite shape0_matmul, shape0_transpose. reflexivity.
Qed.

Lemma nth_cols (A : ndarray2) j :
  (j < ncols A)%nat -> nth j (cols A) [] = col A j.
Proof.
  intros Hj. unfold cols.
  rewrite (nth_map_lt _ _ _ 0%nat) by (rewrite length_seq; exact Hj).
  rewrite seq_nth by exact Hj. reflexivity.
Qed.

(** The code's expression and the specification's formula agree. *)
Lemma direct_is_affine m z :
  length (Y_offset m) = Y_variables m ->
  ncols (B m) = Y_variables m ->
  vadd (Y_offset m) (vecmat (vsub z (X_offset m)) (B m)) = affine m z.
Proof.
  intros HY HB. unfold affine, vadd.
  apply (nth_ext _ _ f0 f0).
  - rewrite length_zip_with, length_vecmat, length_map, length_seq. lia.
  - intros j Hj.
    rewrite length_zip_with, length_vecmat in Hj.
    rewrite nth_zip_with by (rewrite ?length_vecmat; lia).
    rewrite (nth_map_lt _ (seq 0 (Y_variables m)) j 0%nat)
      by (rewrite length_seq; lia).
    rewrite seq_nth by lia. cbn [Nat.add]. f_equal.
    unfold vecmat.
    rewrite (nth_map_lt (dot (vsub z (X_offset m))) (cols (B m)) j [] f0)
      by (rewrite length_cols; lia).
    rewrite nth_cols by lia. reflexivity.
Qed.

Lemma length_affine m z : length (affine m z) = Y_variables m.
Proof. unfold affine. rewrite length_map, length_seq. reflexivity. Qed.

(** C6. For a fitted model, [prediction] on a row [z] of length [p]
    returns the row [Y_offset + (z - X_offset)ᵗ·B], of length [m]; on a
    batch with [p] columns it returns the array of shape [(k, m)] whose
    row [i] is that map applied to row [i] of the batch. *)
Theorem prediction_affine m :
  fitted L m ->
  (forall z, length z = X_variables m ->
     returns (prediction L m (A1 z)) (A1 (affine m z)) /\
     length (affine m z) = Y_variables m) /\
  (forall Zb, wf2 Zb -> shape1 Zb = X_variables m ->
     let R := Arr2 (Y_variables m) (map (affine m) (rows Zb)) in
     returns (prediction L m (A2 Zb)) (A2 R) /\
     shape0 R = shape0 Zb /\ shape1 R = Y_variables m /\ wf2 R /\
     forall i, (i < shape0 Zb)%nat ->
       nth i (rows R) [] = affine m (nth i (rows Zb) [])).
Proof.
  intros Hm. destruct (fitted_shapes m Hm) as (_ & HY & HB & _).
  split.
  - intros z Hz. split; [|apply length_affine].
    rewrite <- (direct_is_affine m z HY HB).
    apply prediction_row_returns, Hz.
  - intros Zb Hwf Hp R. subst R.
    split; [|split; [|split; [reflexivity|split]]].
    + pose proof (prediction_batch_returns L m Zb Hp) as H.
      erewrite map_ext in H; [exact H|].
      intros z. apply (direct_is_affine m z HY HB).
    + unfold shape0. cbn [rows]. apply length_map.
    + unfold wf2. cbn [rows ncols]. apply Forall_forall. intros r Hr.
      apply list_elem_of_In, in_map_iff in Hr. destruct Hr as (z & <- & _).
      apply length_affine.
    + intros i Hi. cbn [rows]. apply nth_map_lt. exact Hi.
Qed.

(** C7, as the code has it. When the input does not have as many
    variables as the calibration [X] (a row of another length, a batch
    with another number of columns), both methods raise [ParameterError]
    with one fixed message, the same for every model (it speaks of the
    number of variables of the original [X] data and does not state it),
    and the state is the one they started in: nothing was computed. *)
Theorem prediction_shape_mismatch m s :
  (forall z, length z <> X_variables m ->
     prediction L m (A1 z) s = (Err (ParameterError msg_variables), s) /\
     prediction_iterative L m (A1 z) s =
       (Err (ParameterError msg_variables), s)) /\
  (forall Zb, shape1 Zb <> X_variables m ->
     prediction L m (A2 Zb) s = (Err (ParameterError msg_variables), s) /\
     prediction_iterative L m (A2 Zb) s =
       (Err (ParameterError msg_variables), s)).
Proof.
  split.
  - intros z Hz. apply Nat.eqb_neq in Hz.
    unfold prediction, prediction_iterative. rewrite Hz. split; reflexivity.
  - intros Zb Hz. apply Nat.eqb_neq in Hz.
    unfold prediction, prediction_iterative. rewrite Hz. split; reflexivity.
Qed.

Lemma lookup_map_lt {A B : Type} (f : A -> B) (l : list A) (i : nat) (d : A) :
  (i < length l)%nat -> map f l !! i = Some (f (nth i l d)).
Proof.
  revert i. induction l as [|a l IH]; intros [|i] Hi; cbn in *; try lia;
    [reflexivity | apply IH; lia].
Qed.

(** C8. For a fitted model and a batch [Z] of [k] rows of width [p], what
    either method returns for the batch has [k] rows, and its row [i]
    (which exists, for every [i < k]) is what the same method returns for
    the row [Z[i]] alone. *)
Theorem batch_row_consistency m Zb i :
  fitted L m -> wf2 Zb -> shape1 Zb = X_variables m ->
  (i < shape0 Zb)%nat ->
  exists R r R' r',
    returns (prediction L m (A2 Zb)) (A2 R) /\
    shape0 R = shape0 Zb /\
    returns (prediction L m (A1 (nth i (rows Zb) []))) (A1 r) /\
    rows R !! i = Some r /\
    returns (prediction_iterative L m (A2 Zb)) (A2 R') /\
    shape0 R' = shape0 Zb /\
    returns (prediction_iterative L m (A1 (nth i (rows Zb) []))) (A1 r') /\
    rows R' !! i = Some r'.
Proof.
  intros _ Hwf Hp Hi.
  assert (Hlen : length (nth i (rows Zb) []) = X_variables m).
  { rewrite <- Hp. unfold wf2 in Hwf. rewrite Forall_forall in Hwf.
    apply Hwf, list_elem_of_In, nth_In. exact Hi. }
  pose (direct := fun z : vec =>
                    vadd (Y_offset m) (vecmat (vsub z (X_offset m)) (B m))).
  exists (Arr2 (Y_variables m) (map direct (rows Zb))),
         (direct (nth i (rows Zb) [])),
         (Arr2 (Y_variables m) (map (iterative m) (rows Zb))),
         (iterative m (nth i (rows Zb) [])).
  split; [apply prediction_batch_returns, Hp|].
  split; [unfold shape0; cbn [rows]; apply length_map|].
  split; [apply prediction_row_returns, Hlen|].
  split; [cbn [rows]; apply (lookup_map_lt direct); exact Hi|].
  split; [apply prediction_iterative_batch_returns, Hp|].
  split; [unfold shape0; cbn [rows]; apply length_map|].
  split; [apply prediction_iterative_row_returns, Hlen|].
  cbn [rows]. apply (lookup_map_lt (iterative m)). exact Hi.
Qed.

(** C10. For a fitted model, both methods accept a batch of shape
    [(0, p)] and return the empty array of shape [(0, m)]. *)
Theorem prediction_empty_batch m Zb :
  fitted L m -> rows Zb = [] -> shape1 Zb = X_variables m ->
  let R := Arr2 (Y_variables m) [] in
  returns (prediction L m (A2 Zb)) (A2 R) /\
  returns (prediction_iterative L m (A2 Zb)) (A2 R) /\
  shape0 R = 0%nat /\ shape1 R = Y_variables m.
Proof.
  intros _ Hrows Hp R. subst R.
  split; [|split; [|split; reflexivity]].
  - pose proof (prediction_batch_returns L m Zb Hp) as H.
    rewrite Hrows in H. exact H.
  - pose proof (prediction_iterative_batch_returns L m Zb Hp) as H.
    rewrite Hrows in H. exact H.
Qed.

End PredictTheorems.

(** ** The constructor and the methods on concrete data *)

Lemma show1_inj (u v : list Qc) : Exact.show1 u = Exact.show1 v -> u = v.
Proof.
  unfold Exact.show1. revert v.
  induction u as [|a u IH]; intros [|b v] H; cbn in H; try discriminate.
  - reflexivity.
  - injection H as Hab Huv. f_equal; [|apply IH, Huv].
    apply Qc_is_canon. rewrite Hab. reflexivity.
Qed.

Lemma show2_inj (A B : @ndarray2 Qc_Scalar) :
  Exact.show2 A = Exact.show2 B -> A = B.
Proof.
  destruct A as [c rs], B as [c' rs']. unfold Exact.show2. cbn.
  intros [= -> H]. f_equal.
  revert rs' H. induction rs as [|r rs IH]; intros [|r' rs'] H; cbn in H;
    try discriminate; [reflexivity|].
  injection H as Hr Hrs. f_equal; [apply show1_inj, Hr | apply IH, Hrs].
Qed.

Lemma ok_get {A} (r : res A) (d : A) :
  Exact.is_ok r = true -> r = Ok (match r with Ok a => a | Err _ => d end).
Proof. destruct r; [reflexivity | discriminate]. Qed.

Lemma value_get {A} (o : option A) (d : A) :
  Exact.has_value o = true ->
  o = Some (match o with Some a => a | None => d end).
Proof. destruct o; [reflexivity | discriminate]. Qed.

Lemma caller_X X Y : store (Exact.caller X Y) !! 1%positive = Some (A2 X).
Proof.
  unfold Exact.caller. cbn [store].
  rewrite lookup_insert_ne by discriminate. apply lookup_insert_eq.
Qed.

Lemma caller_Y X Y : store (Exact.caller X Y) !! 2%positive = Some (A2 Y).
Proof. unfold Exact.caller. cbn [store]. apply lookup_insert_eq. Qed.

(** Running the constructor on the caller's store. *)
Lemma fit_caller X Y g m :
  fit_value Exact.lib X Y g = Ok m ->
  fit Exact.lib 1%positive 2%positive g (Exact.caller X Y) =
  (Ok m, (fit Exact.lib 1%positive 2%positive g (Exact.caller X Y)).2).
Proof.
  intros H.
  pose proof (fit_eval Exact.lib 1%positive 2%positive g _ X Y
                (caller_X X Y) (caller_Y X Y)) as E.
  rewrite H in E.
  destruct (fit Exact.lib 1%positive 2%positive g (Exact.caller X Y)) as [r s'].
  cbn in *. rewrite E. reflexivity.
Qed.

Lemma fitted_of X Y g m :
  fit_value Exact.lib X Y g = Ok m -> fitted Exact.lib m.
Proof.
  intros H. exists (Exact.caller X Y), 1%positive, 2%positive, g.
  eexists. apply fit_caller, H.
Qed.

Lemma model3_value : fit_value Exact.lib Exact.X3 Exact.Y3 2 = Ok Exact.model3.
Proof. apply ok_get. vm_compute. reflexivity. Qed.

Lemma model_const_value :
  fit_value Exact.lib Exact.X3 Exact.Yconst 2 = Ok Exact.model_const.
Proof. apply ok_get. vm_compute. reflexivity. Qed.

Lemma model3_fitted : fitted Exact.lib Exact.model3.
Proof. exact (fitted_of _ _ _ _ model3_value). Qed.

Lemma eig3_value :
  eigh Exact.lib (eig_input Exact.X3 Exact.Y3) =
  Some (Exact.eig3.1, Exact.eig3.2).
Proof.
  rewrite <- surjective_pairing. apply value_get. vm_compute. reflexivity.
Qed.

Lemma inv3_value :
  inv Exact.lib (PtW Exact.X3 (weights Exact.eig3.2 2)) = Some Exact.inv3.
Proof. apply value_get. vm_compute. reflexivity. Qed.

Lemma eig3_spec :
  eigh_spec (eig_input Exact.X3 Exact.Y3) Exact.eig3.1 Exact.eig3.2.
Proof.
  assert (Hlen : length Exact.eig3.1 = 2%nat) by (vm_compute; reflexivity).
  split; [vm_compute; reflexivity|]. split; [vm_compute; reflexivity|]. split.
  - intros i j Hij Hj. rewrite Hlen in Hj.
    destruct j as [|[|j]]; [| |lia]; destruct i as [|[|i]]; try lia;
      vm_compute; discriminate.
  - intros k Hk. rewrite Hlen in Hk.
    destruct k as [|[|k]]; [| |lia]; apply show1_inj; vm_compute; reflexivity.
Qed.

Lemma library_contract_X3_Y3 :
  library_contract Exact.lib Exact.X3 Exact.Y3 2.
Proof.
  exists Exact.eig3.1, Exact.eig3.2, Exact.inv3.
  split; [exact eig3_value|]. split; [exact eig3_spec|].
  split; [|split; [exact inv3_value|]].
  - intros j Hj.
    assert (Hj' : (j < 2)%nat).
    { revert Hj. vm_compute. intros H. exact H. }
    destruct j as [|[|j]]; [| |lia]; apply Qc_is_canon; vm_compute; reflexivity.
  - apply show2_inj. vm_compute. reflexivity.
Qed.


(** C1, at a failing input. The model fitted to [X3], [Y3] with two
    components is a valid fit (the eigensolver, the norms and the inverse
    meet their contracts there); on the first calibration row [(1, 0)]
    [prediction] returns [(4, -1)], the calibration output itself, and
    [prediction_iterative] returns [(3, -3/4)]. The scores [T] of PLS-SB
    are not orthogonal ([PᵗW] is not triangular), which the deflation
    loop would need. *)
Theorem prediction_iterative_disagrees :
  fitted Exact.lib Exact.model3 /\
  library_contract Exact.lib Exact.X3 Exact.Y3 2 /\
  exists y y',
    returns (prediction Exact.lib Exact.model3 (A1 Exact.z_row)) (A1 y) /\
    returns (prediction_iterative Exact.lib Exact.model3 (A1 Exact.z_row))
            (A1 y') /\
    Exact.show1 y = [4; -1]%Q /\
    Exact.show1 y' = [3; -3 # 4]%Q /\
    y <> y'.
Proof.
  split; [exact model3_fitted|]. split; [exact library_contract_X3_Y3|].
  assert (Hlen : length Exact.z_row = X_variables Exact.model3)
    by (vm_compute; reflexivity).
  eexists _, _.
  split; [exact (prediction_row_returns Exact.lib _ _ Hlen)|].
  split; [exact (prediction_iterative_row_returns Exact.lib _ _ Hlen)|].
  assert (H1 : Exact.show1
                 (vadd (Y_offset Exact.model3)
                    (vecmat (vsub Exact.z_row (X_offset Exact.model3))
                       (B Exact.model3))) = [4; -1]%Q)
    by (vm_compute; reflexivity).
  assert (H2 : Exact.show1 (iterative Exact.model3 Exact.z_row)
               = [3; -3 # 4]%Q)
    by (vm_compute; reflexivity).
  split; [exact H1|]. split; [exact H2|].
  intros E. rewrite E, H2 in H1. discriminate H1.
Qed.

(** [X3] has three rows and [Y2] two. *)
Lemma fit_row_mismatch_witness :
  fit Exact.lib 1%positive 2%positive 2 (Exact.caller Exact.X3 Exact.Y2) =
  (Err (ParameterError msg_rows), Exact.caller Exact.X3 Exact.Y2).
Proof.
  apply (fit_row_mismatch Exact.lib 1%positive 2%positive 2 _
           Exact.X3 Exact.Y2).
  - apply caller_X.
  - apply caller_Y.
  - vm_compute. lia.
Defined.

(** Data without samples: the row counts match, [max_rank] is 0, and
    the constructor called with [g = max_rank] raises [ParameterError]. *)
Lemma fit_max_rank_zero_fails :
  shape0 Exact.X0 = shape0 Exact.Y0 /\
  fit Exact.lib 1%positive 2%positive
      (Z.of_nat (Nat.min (shape0 Exact.X0) (shape1 Exact.X0)))
      (Exact.caller Exact.X0 Exact.Y0) =
  (Err (ParameterError msg_components), Exact.caller Exact.X0 Exact.Y0).
Proof.
  split; [reflexivity|].
  apply (fit_bad_components Exact.lib _ _ _ _ Exact.X0 Exact.Y0).
  - apply caller_X.
  - apply caller_Y.
  - reflexivity.
  - left. vm_compute. reflexivity.
Qed.

(** For [X3] and [Y3], [max_rank] is 2, and [g = 2] is fitted. *)
Lemma fit_component_bounds_witness :
  (forall msg,
     (fit Exact.lib 1%positive 2%positive 2
          (Exact.caller Exact.X3 Exact.Y3)).1 <> Err (ParameterError msg)) /\
  exists m,
    (fit Exact.lib 1%positive 2%positive 2
         (Exact.caller Exact.X3 Exact.Y3)).1 = Ok m.
Proof.
  destruct (fit_component_bounds Exact.lib 1%positive 2%positive 2
              (Exact.caller Exact.X3 Exact.Y3) Exact.X3 Exact.Y3
              (caller_X _ _) (caller_Y _ _)) as [_ H].
  - vm_compute. reflexivity.
  - destruct H as [H1 H2].
    + vm_compute. split; discriminate.
    + split; [exact H1|].
      exact (H2 _ _ _ eig3_value inv3_value).
Defined.

(** For [X3] and [Y3] the eigenvalues are 9 and 36, and the columns of
    [W] are the eigenvectors for 36 and for 9, in this order. *)
Lemma fit_W_top_eigenvectors_witness :
  shape1 (W Exact.model3) = 2%nat /\
  Exact.show1 Exact.eig3.1 = [9; 36]%Q /\
  forall j, (j < 2)%nat ->
    matvec (eig_input Exact.X3 Exact.Y3) (col (W Exact.model3) j) =
    vscale (nth (2 - 1 - j) Exact.eig3.1 f0) (col (W Exact.model3) j).
Proof.
  destruct (fit_W_top_eigenvectors Exact.lib 1%positive 2%positive 2
              (Exact.caller Exact.X3 Exact.Y3) _ Exact.X3 Exact.Y3
              Exact.model3 Exact.eig3.1 Exact.eig3.2
              (caller_X _ _) (caller_Y _ _)
              (fit_caller _ _ _ _ model3_value) eig3_value eig3_spec)
    as (H1 & _ & H3 & _).
  split; [exact H1|]. split; [vm_compute; reflexivity|].
  intros j Hj. exact (proj2 (H3 j Hj)).
Defined.

(** A constant [Y]: the constructor returns a model, the columns of
    [Ycᵗ·T] are zero, and dividing them by their norm 0 does not give
    norm 1 (IEEE arithmetic gives [nan] entries, the exact field an
    unspecified value, here 0). *)
Lemma fit_Q_column_not_unit :
  exists m s',
    fit Exact.lib 1%positive 2%positive 2
        (Exact.caller Exact.X3 Exact.Yconst) = (Ok m, s') /\
    (0 < shape1 (Q m))%nat /\
    dot (col (Q m) 0) (col (Q m) 0) <> f1.
Proof.
  exists Exact.model_const. eexists.
  split; [exact (fit_caller _ _ _ _ model_const_value)|].
  split; [apply Nat.ltb_lt; vm_compute; reflexivity|].
  intros E. apply (f_equal this) in E. vm_compute in E. discriminate E.
Qed.

(** The first column of the [Q] fitted to [X3] and [Y3]. *)
Lemma fit_Q_columns_unit_witness :
  dot (col (Q Exact.model3) 0) (col (Q Exact.model3) 0) = f1.
Proof.
  assert (Hj : (0 < shape1 (Q Exact.model3))%nat)
    by (apply Nat.ltb_lt; vm_compute; reflexivity).
  destruct (fit_Q_columns_unit Exact.lib 1%positive 2%positive 2
              (Exact.caller Exact.X3 Exact.Y3) _ Exact.X3 Exact.Y3
              Exact.model3 0%nat (caller_X _ _) (caller_Y _ _)
              (fit_caller _ _ _ _ model3_value) Hj) as [_ H].
  apply H.
  - apply Qc_is_canon. vm_compute. reflexivity.
  - intros E. apply (f_equal this) in E. vm_compute in E. discriminate E.
Defined.

Lemma Z_batch_wf : wf2 Exact.Z_batch.
Proof. unfold wf2. vm_compute. repeat constructor. Qed.

(** [model3] on the first calibration row and on a batch of three
    rows. *)
Lemma prediction_affine_witness :
  returns (prediction Exact.lib Exact.model3 (A1 Exact.z_row))
          (A1 (affine Exact.model3 Exact.z_row)) /\
  Exact.show1 (affine Exact.model3 Exact.z_row) = [4; -1]%Q /\
  returns (prediction Exact.lib Exact.model3 (A2 Exact.Z_batch))
          (A2 (Arr2 (Y_variables Exact.model3)
                 (map (affine Exact.model3) (rows Exact.Z_batch)))).
Proof.
  destruct (prediction_affine Exact.lib Exact.model3 model3_fitted)
    as [H1 H2].
  assert (Hrow : length Exact.z_row = X_variables Exact.model3)
    by (vm_compute; reflexivity).
  assert (Hbatch : shape1 Exact.Z_batch = X_variables Exact.model3)
    by (vm_compute; reflexivity).
  split; [|split].
  - exact (proj1 (H1 Exact.z_row Hrow)).
  - vm_compute. reflexivity.
  - exact (proj1 (H2 Exact.Z_batch Z_batch_wf Hbatch)).
Defined.

(** [model3] on a row of three entries and on a batch of three
    columns. *)
Lemma model1v_value :
  fit_value Exact.lib Exact.X1v Exact.Y1v 1 = Ok Exact.model1v.
Proof. apply ok_get. vm_compute. reflexivity. Qed.

(** C7, the error does not identify the expected count. [model3] was
    fitted to two variables and [model1v] to one; for a row of three
    values, and for a batch of three columns, the two models raise the
    very same error, from either method: nothing in it tells 2 from 1. *)
Lemma prediction_error_states_no_count :
  fitted Exact.lib Exact.model3 /\ fitted Exact.lib Exact.model1v /\
  X_variables Exact.model3 = 2%nat /\ X_variables Exact.model1v = 1%nat /\
  prediction Exact.lib Exact.model3 (A1 Exact.z_long) (State ∅ []) =
    (Err (ParameterError msg_variables), State ∅ []) /\
  prediction Exact.lib Exact.model1v (A1 Exact.z_long) (State ∅ []) =
    (Err (ParameterError msg_variables), State ∅ []) /\
  prediction_iterative Exact.lib Exact.model3 (A1 Exact.z_long) (State ∅ []) =
    (Err (ParameterError msg_variables), State ∅ []) /\
  prediction_iterative Exact.lib Exact.model1v (A1 Exact.z_long)
    (State ∅ []) = (Err (ParameterError msg_variables), State ∅ []) /\
  prediction Exact.lib Exact.model3 (A2 Exact.Z_wide) (State ∅ []) =
    (Err (ParameterError msg_variables), State ∅ []) /\
  prediction Exact.lib Exact.model1v (A2 Exact.Z_wide) (State ∅ []) =
    (Err (ParameterError msg_variables), State ∅ []) /\
  prediction_iterative Exact.lib Exact.model3 (A2 Exact.Z_wide) (State ∅ []) =
    (Err (ParameterError msg_variables), State ∅ []) /\
  prediction_iterative Exact.lib Exact.model1v (A2 Exact.Z_wide)
    (State ∅ []) = (Err (ParameterError msg_variables), State ∅ []).
Proof.
  assert (H3 : X_variables Exact.model3 = 2%nat) by (vm_compute; reflexivity).
  assert (H1 : X_variables Exact.model1v = 1%nat) by (vm_compute; reflexivity).
  assert (Hz : length Exact.z_long = 3%nat) by (vm_compute; reflexivity).
  assert (HZ : shape1 Exact.Z_wide = 3%nat) by (vm_compute; reflexivity).
  split; [exact (fitted_of _ _ _ _ model3_value)|].
  split; [exact (fitted_of _ _ _ _ model1v_value)|].
  split; [exact H3|]. split; [exact H1|].
  unfold prediction, prediction_iterative.
  rewrite H3, H1, Hz, HZ. cbn [Nat.eqb].
  repeat split; reflexivity.
Qed.

Lemma prediction_shape_mismatch_witness :
  prediction Exact.lib Exact.model3 (A1 Exact.z_long) (State ∅ []) =
    (Err (ParameterError msg_variables), State ∅ []) /\
  prediction_iterative Exact.lib Exact.model3 (A2 Exact.Z_wide) (State ∅ []) =
    (Err (ParameterError msg_variables), State ∅ []).
Proof.
  destruct (prediction_shape_mismatch Exact.lib Exact.model3 (State ∅ []))
    as [H1 H2].
  assert (Hrow : length Exact.z_long <> X_variables Exact.model3)
    by (vm_compute; lia).
  assert (Hbatch : shape1 Exact.Z_wide <> X_variables Exact.model3)
    by (vm_compute; lia).
  split.
  - exact (proj1 (H1 Exact.z_long Hrow)).
  - exact (proj2 (H2 Exact.Z_wide Hbatch)).
Defined.

(** [model3] on a batch and on its last row. *)
Lemma batch_row_consistency_witness :
  exists R r R' r',
    returns (prediction Exact.lib Exact.model3 (A2 Exact.Z_batch)) (A2 R) /\
    shape0 R = shape0 Exact.Z_batch /\
    returns (prediction Exact.lib Exact.model3
               (A1 (nth 2 (rows Exact.Z_batch) []))) (A1 r) /\
    rows R !! 2%nat = Some r /\
    returns (prediction_iterative Exact.lib Exact.model3 (A2 Exact.Z_batch))
            (A2 R') /\
    shape0 R' = shape0 Exact.Z_batch /\
    returns (prediction_iterative Exact.lib Exact.model3
               (A1 (nth 2 (rows Exact.Z_batch) []))) (A1 r') /\
    rows R' !! 2%nat = Some r'.
Proof.
  assert (Hp : shape1 Exact.Z_batch = X_variables Exact.model3)
    by (vm_compute; reflexivity).
  assert (Hi : (2 < shape0 Exact.Z_batch)%nat)
    by (apply Nat.ltb_lt; vm_compute; reflexivity).
  exact (batch_row_consistency Exact.lib Exact.model3 Exact.Z_batch 2
           model3_fitted Z_batch_wf Hp Hi).
Defined.

(** [model3] on a batch of shape [(0, 2)]. *)
Lemma prediction_empty_batch_witness :
  returns (prediction Exact.lib Exact.model3 (A2 Exact.Z_none))
          (A2 (Arr2 (Y_variables Exact.model3) [])) /\
  returns (prediction_iterative Exact.lib Exact.model3 (A2 Exact.Z_none))
          (A2 (Arr2 (Y_variables Exact.model3) [])).
Proof.
  assert (Hrows : rows Exact.Z_none = []) by reflexivity.
  assert (Hp : shape1 Exact.Z_none = X_variables Exact.model3)
    by (vm_compute; reflexivity).
  destruct (prediction_empty_batch Exact.lib Exact.model3 Exact.Z_none
              model3_fitted Hrows Hp) as (H1 & H2 & _).
  split; [exact H1 | exact H2].
Defined.

(** ** Dot products and matrix products *)

Section LinearAlgebra.
Context {Sc : Scalar}.

Add Field Ffield_la : F_field.

Lemma dot_nil_l (v : vec) : dot [] v = f0.
Proof. reflexivity. Qed.

Lemma dot_nil_r (u : vec) : dot u [] = f0.
Proof. destruct u; reflexivity. Qed.

Lemma dot_comm (u v : vec) : dot u v = dot v u.
Proof.
  revert v. induction u as [|a u IH]; intros [|b v]; try reflexivity.
  rewrite !dot_cons, IH. ring.
Qed.

Lemma dot_vadd_l (a b w : vec) :
  length a = length b ->
  dot (vadd a b) w = (dot a w + dot b w)%F.
Proof.
  revert b w. induction a as [|x a IH]; intros [|y b] w H; cbn in H; try lia.
  - unfold vadd, vsub, dot. cbn. ring.
  - destruct w as [|z w].
    + rewrite !dot_nil_r. ring.
    + unfold vadd. cbn [zip_with]. rewrite !dot_cons.
      fold (vadd a b). rewrite IH by lia. ring.
Qed.


Lemma dot_vscale_l (x : F) (r w : vec) :
  dot (vscale x r) w = (x * dot r w)%F.
Proof.
  revert w. induction r as [|a r IH]; intros [|b w].
  - unfold vscale, dot. cbn. ring.
  - unfold vscale, dot. cbn. ring.
  - rewrite !dot_nil_r. ring.
  - unfold vscale. cbn [map]. rewrite !dot_cons. fold (vscale x r).
    rewrite IH. ring.
Qed.

Lemma dot_div_l (n : F) (v w : vec) :
  dot (map (fun x => x / n)%F v) w = (dot v w / n)%F.
Proof.
  assert (Hdiv : forall a b : F, (a / b)%F = (a * finv b)%F)
    by (intros; apply (Fdiv_def F_field)).
  revert w. induction v as [|a v IH]; intros [|b w].
  - unfold dot. cbn. rewrite Hdiv. ring.
  - unfold dot. cbn. rewrite Hdiv. ring.
  - rewrite !dot_nil_r, Hdiv. ring.
  - cbn [map]. rewrite !dot_cons, IH, !Hdiv. ring.
Qed.

Lemma dot_zeros_l (u w : vec) : Forall (fun x => x = f0) u -> dot u w = f0.
Proof.
  intros H. revert w. induction H as [|x u -> _ IH]; intros [|b w];
    try reflexivity.
  rewrite dot_cons, IH. ring.
Qed.

Lemma map_nth_seq (r : vec) :
  map (fun j => nth j r f0) (seq 0 (length r)) = r.
Proof.
  apply (nth_ext _ _ f0 f0).
  - rewrite length_map, length_seq. reflexivity.
  - intros j Hj. rewrite length_map, length_seq in Hj.
    rewrite (nth_map_lt _ _ _ 0%nat) by (rewrite length_seq; exact Hj).
    rewrite seq_nth by exact Hj. reflexivity.
Qed.

Lemma map_seq_vadd (f g : nat -> F) (l : list nat) :
  map (fun j => (f j + g j)%F) l = vadd (map f l) (map g l).
Proof.
  induction l as [|j l IH]; [reflexivity|].
  cbn [map]. unfold vadd. cbn [zip_with]. fold (vadd (map f l) (map g l)).
  rewrite IH. reflexivity.
Qed.

(** [(Aᵗ·u)·w = u·(A·w)] for the rows [rs] of a matrix with [c]
    columns. *)
Lemma dot_adjoint (rs : list vec) (c : nat) (u w : vec) :
  Forall (fun r => length r = c) rs -> length u = length rs ->
  dot (map (fun j => dot (map (fun r => nth j r f0) rs) u) (seq 0 c)) w =
  dot u (map (fun r => dot r w) rs).
Proof.
  intros Hwf. revert u. induction Hwf as [|r rs Hr Hwf IH]; intros u Hu.
  - destruct u; [|discriminate]. cbn [map]. rewrite dot_nil_l.
    apply dot_zeros_l. apply Forall_forall. intros x Hx.
    apply list_elem_of_In, in_map_iff in Hx. destruct Hx as (j & <- & _).
    reflexivity.
  - destruct u as [|x u]; [discriminate|]. cbn [map].
    rewrite dot_cons. rewrite <- (IH u) by (cbn in Hu; lia).
    transitivity
      (dot (vadd (vscale x r)
                 (map (fun j => dot (map (fun r0 => nth j r0 f0) rs) u)
                      (seq 0 c))) w).
    + f_equal.
      replace (vscale x r)
        with (map (fun j => (x * nth j r f0)%F) (seq 0 c)).
      * rewrite <- map_seq_vadd. apply map_ext. intros j.
        cbn [map]. rewrite dot_cons. ring.
      * unfold vscale. rewrite <- Hr.
        rewrite <- (map_map (fun j => nth j r f0) (fmul x)).
        rewrite map_nth_seq. reflexivity.
    + rewrite dot_vadd_l, dot_vscale_l; [reflexivity|].
      unfold vscale. rewrite !length_map, length_seq. exact Hr.
Qed.

Lemma col_matmul (A B : ndarray2) (j : nat) :
  (j < ncols B)%nat ->
  col (matmul A B) j = map (fun r => dot r (col B j)) (rows A).
Proof.
  intros Hj. unfold col at 1, matmul. cbn [rows]. rewrite map_map.
  apply map_ext. intros r. unfold vecmat.
  rewrite (nth_map_lt (dot r) (cols B) j [] f0)
    by (rewrite length_cols; exact Hj).
  rewrite nth_cols by exact Hj. reflexivity.
Qed.

Lemma entry_matmul (A B : ndarray2) (i j : nat) :
  (i < shape0 A)%nat -> (j < ncols B)%nat ->
  entry (matmul A B) i j = dot (nth i (rows A) []) (col B j).
Proof.
  intros Hi Hj. unfold entry, matmul. cbn [rows].
  rewrite (nth_map_lt (fun r => vecmat r B) (rows A) i [] []) by exact Hi.
  unfold vecmat.
  rewrite (nth_map_lt (dot (nth i (rows A) [])) (cols B) j [] f0)
    by (rewrite length_cols; exact Hj).
  rewrite nth_cols by exact Hj. reflexivity.
Qed.

Lemma rows_transpose (A : ndarray2) (j : nat) :
  (j < ncols A)%nat -> nth j (rows (transpose A)) [] = col A j.
Proof. intros Hj. unfold transpose. cbn [rows]. apply nth_cols, Hj. Qed.

(** [(Aᵗ·B)[j, k]] is the dot product of columns [j] of [A] and [k] of
    [B]. *)
Lemma entry_gram (A B : ndarray2) (j k : nat) :
  (j < ncols A)%nat -> (k < ncols B)%nat ->
  entry (matmul (transpose A) B) j k = dot (col A j) (col B k).
Proof.
  intros Hj Hk. rewrite entry_matmul; [|rewrite shape0_transpose; exact Hj|exact Hk].
  rewrite rows_transpose by exact Hj. reflexivity.
Qed.

Lemma nth_diagonal (A : ndarray2) (j : nat) :
  (j < ncols A)%nat -> (j < shape0 A)%nat ->
  nth j (diagonal A) f0 = entry A j j.
Proof.
  intros Hc Hr. unfold diagonal, entry.
  rewrite (nth_lookup _ _ f0).
  rewrite list_lookup_imap, lookup_take_lt by exact Hc.
  destruct (lookup_lt_is_Some_2 (rows A) j Hr) as [r Er].
  unfold vec in *. rewrite Er. cbn.
  rewrite (nth_lookup_Some _ _ _ _ Er). reflexivity.
Qed.

End LinearAlgebra.

(** ** More on the constructor *)

Section FitMore.
Context {Sc : Scalar}.
Variable L : linalg.

Add Field Ffield_fm : F_field.

(** X2. A fitted model has at least one component, and no more components
    than samples or [X] variables. *)
Theorem fitted_counts m :
  fitted L m ->
  max_rank m = Nat.min (data_samples m) (X_variables m) /\
  (1 <= components m <= Z.of_nat (max_rank m))%Z /\
  (1 <= data_samples m)%nat /\ (1 <= X_variables m)%nat.
Proof.
  intros (s & lX & lY & g & s' & Hfit).
  destruct (fit_ok_store _ _ _ _ _ _ _ Hfit) as (X & Y & HX & HY).
  apply (fit_ok_value _ _ _ _ _ _ _ _ _ HX HY) in Hfit.
  apply fit_value_ok in Hfit as (_ & Hg & ev & W0 & R & _ & _ & ->).
  cbn [max_rank data_samples X_variables components].
  split; [reflexivity|]. split; [exact Hg|]. lia.
Qed.

(** X3. With valid parameters the constructor fails exactly when the
    eigensolver or the inversion fails, and then with their failure. *)
Theorem fit_solver_failure lX lY g s X Y :
  store s !! lX = Some (A2 X) ->
  store s !! lY = Some (A2 Y) ->
  shape0 X = shape0 Y ->
  (1 <= g <= Z.of_nat (Nat.min (shape0 X) (shape1 X)))%Z ->
  (forall e, (fit L lX lY g s).1 = Err e -> e = LinAlgError) /\
  ((fit L lX lY g s).1 = Err LinAlgError <->
   eigh L (eig_input X Y) = None \/
   exists ev W0, eigh L (eig_input X Y) = Some (ev, W0) /\
                 inv L (PtW X (weights W0 g)) = None).
Proof.
  intros HX HY HN Hg. rewrite (fit_eval L lX lY g s X Y HX HY).
  unfold fit_value. apply Nat.eqb_eq in HN. rewrite HN. cbn [negb].
  assert (E : ((g <? 1) || (Z.of_nat (Nat.min (shape0 X) (shape1 X)) <? g))%Z
              = false) by (apply orb_false_iff; split; apply Z.ltb_ge; lia).
  rewrite E.
  destruct (eigh L (eig_input X Y)) as [[ev W0]|].
  - cbv zeta. cbn [snd].
    destruct (inv L (PtW X (weights W0 g))) as [R|] eqn:Einv.
    + split; [discriminate|]. split; [discriminate|].
      intros [H|(ev' & W0' & H & H')]; [discriminate|].
      injection H as <- <-. rewrite Einv in H'. discriminate.
    + split; [intros e [= <-]; reflexivity|]. split; [|reflexivity].
      intros _. right. exists ev, W0. split; [reflexivity | exact Einv].
  - split; [intros e [= <-]; reflexivity|]. split; [|reflexivity].
    intros _. left. reflexivity.
Qed.

Lemma col_sub_rows (A : ndarray2) (v : vec) (j : nat) :
  wf2 A -> length v = ncols A -> (j < ncols A)%nat ->
  col (sub_rows A v) j = map (fun x => x - nth j v f0)%F (col A j).
Proof.
  intros Hwf Hv Hj. unfold col, sub_rows. cbn [rows]. rewrite !map_map.
  apply map_ext_in. intros r Hr.
  assert (Hlen : length r = ncols A).
  { unfold wf2 in Hwf. rewrite Forall_forall in Hwf.
    apply Hwf, list_elem_of_In, Hr. }
  unfold vsub. apply nth_zip_with; lia.
Qed.

Lemma fsum_shift (l : vec) (c : F) :
  fsum (map (fun x => x - c)%F l) = (fsum l - fnat (length l) * c)%F.
Proof.
  induction l as [|a l IH]; cbn [map length fnat fsum foldr].
  - ring.
  - fold (fsum (map (fun x => (x - c)%F) l)). fold (fsum l).
    rewrite IH. ring.
Qed.

Lemma length_col (A : ndarray2) j : length (col A j) = shape0 A.
Proof. unfold col. apply length_map. Qed.

Lemma wf2_centred (X : ndarray2) : wf2 X -> wf2 (centred X).
Proof.
  intros Hwf. unfold wf2, centred, sub_rows in *. cbn [rows ncols].
  rewrite Forall_forall in Hwf. apply Forall_forall. intros r Hr.
  apply list_elem_of_In, in_map_iff in Hr. destruct Hr as (r0 & <- & Hr0).
  unfold vsub. rewrite length_zip_with, length_mean0.
  rewrite (Hwf r0) by (apply list_elem_of_In, Hr0). lia.
Qed.

Lemma centred_col_sum (X : ndarray2) (j : nat) :
  wf2 X -> fnat (shape0 X) <> f0 -> (j < ncols X)%nat ->
  fsum (col (centred X) j) = f0.
Proof.
  intros Hwf HN Hj. unfold centred.
  rewrite col_sub_rows; [|exact Hwf|apply length_mean0|exact Hj].
  rewrite fsum_shift, length_col.
  unfold mean0.
  rewrite (nth_map_lt _ (cols X) j [] f0) by (rewrite length_cols; exact Hj).
  rewrite nth_cols by exact Hj. field. exact HN.
Qed.

(** X4. Centring: [X - X.mean(0)] has the shape of [X], and each of its
    columns sums to 0 (the number of rows is not 0 in the field). *)
Theorem centred_columns_sum_to_zero (X : ndarray2) (j : nat) :
  wf2 X -> fnat (shape0 X) <> f0 -> (j < ncols X)%nat ->
  has_shape (centred X) (shape0 X) (shape1 X) /\
  fsum (col (centred X) j) = f0.
Proof.
  intros Hwf HN Hj. split; [|apply centred_col_sum; assumption].
  split; [apply shape0_sub_rows|]. split; [reflexivity|].
  apply wf2_centred, Hwf.
Qed.

Lemma nth_col (A : ndarray2) (i k : nat) :
  (i < shape0 A)%nat -> nth i (col A k) f0 = entry A i k.
Proof.
  intros Hi. unfold col, entry.
  apply (nth_map_lt (fun r => nth k r f0) (rows A) i [] f0). exact Hi.
Qed.

(** Column [j] of [A.T] is row [j] of [A]. *)
Lemma col_transpose (A : ndarray2) (j : nat) :
  wf2 A -> (j < shape0 A)%nat ->
  col (transpose A) j = nth j (rows A) [].
Proof.
  intros Hwf Hj. unfold col at 1, transpose, cols. cbn [rows].
  rewrite map_map.
  assert (Hlen : length (nth j (rows A) []) = ncols A).
  { unfold wf2 in Hwf. rewrite Forall_forall in Hwf.
    apply Hwf, list_elem_of_In, nth_In. exact Hj. }
  rewrite <- Hlen.
  etransitivity; [|apply (map_nth_seq (nth j (rows A) []))].
  apply map_ext. intros k. apply nth_col. exact Hj.
Qed.

(** X5. The matrix handed to [linalg.eigh] is square, of size [p], and
    symmetric. *)
Theorem eig_input_symmetric (X Y : ndarray2) :
  has_shape (eig_input X Y) (shape1 X) (shape1 X) /\
  forall i j, (i < shape1 X)%nat -> (j < shape1 X)%nat ->
    entry (eig_input X Y) i j = entry (eig_input X Y) j i.
Proof.
  assert (HS0 : shape0 (cross X Y) = shape1 X).
  { unfold cross, centred. rewrite shape0_matmul, shape0_transpose.
    reflexivity. }
  split.
  - split; [apply shape0_eig_input|]. split; [|apply wf2_matmul].
    unfold eig_input, shape1, matmul, transpose. cbn [ncols]. exact HS0.
  - intros i j Hi Hj. unfold eig_input.
    assert (Hwf : wf2 (cross X Y)) by apply wf2_matmul.
    rewrite !entry_matmul;
      try (rewrite ?HS0; cbn [transpose ncols]; rewrite ?HS0; assumption).
    rewrite !col_transpose by (rewrite ?HS0; assumption).
    apply dot_comm.
Qed.

Lemma dot_ones_r (u : vec) : dot u (replicate (length u) f1) = fsum u.
Proof.
  induction u as [|a u IH]; [reflexivity|].
  cbn [length replicate]. rewrite dot_cons, IH. cbn [fsum foldr].
  fold (fsum u). ring.
Qed.

(** [(Aᵗ·u)·w = u·(A·w)], on the columns and rows of [A]. *)
Lemma dot_adjoint_cols (A : ndarray2) (u w : vec) :
  wf2 A -> length u = shape0 A ->
  dot (map (fun c => dot c u) (cols A)) w =
  dot u (map (fun r => dot r w) (rows A)).
Proof.
  intros Hwf Hu. unfold cols, col. rewrite map_map.
  apply dot_adjoint; assumption.
Qed.

Lemma entry_diag (v : vec) (i j : nat) :
  (i < length v)%nat -> (j < length v)%nat ->
  entry (diag v) i j = if (i =? j)%nat then nth i v f0 else f0.
Proof.
  intros Hi Hj. unfold entry, diag. cbn [rows].
  destruct (lookup_lt_is_Some_2 v i Hi) as [x Ex].
  assert (Hrow : nth i (imap (fun i x => <[i := x]> (replicate (length v) f0)) v) []
                 = <[i := x]> (replicate (length v) f0)).
  { apply nth_lookup_Some. rewrite list_lookup_imap, Ex. reflexivity. }
  unfold vec in *. rewrite Hrow, (nth_lookup_Some _ _ _ _ Ex).
  destruct (Nat.eqb_spec i j) as [<-|Hne].
  - apply nth_lookup_Some. apply list_lookup_insert_eq.
    rewrite length_replicate. exact Hi.
  - apply nth_lookup_Some. rewrite list_lookup_insert_ne by exact Hne.
    apply lookup_replicate_2. exact Hj.
Qed.

Lemma col_weights (W0 : ndarray2) (g : Z) (j : nat) :
  (1 <= g <= Z.of_nat (ncols W0))%Z -> (j < Z.to_nat g)%nat ->
  col (weights W0 g) j = col W0 (ncols W0 - 1 - j).
Proof.
  intros Hg Hj. unfold weights.
  rewrite col_slice_cols; rewrite slice_last_reversed by exact Hg.
  - rewrite (nth_map_lt _ _ _ 0%nat) by (rewrite length_seq; exact Hj).
    rewrite seq_nth by exact Hj. reflexivity.
  - rewrite length_map, length_seq. exact Hj.
Qed.

Lemma ncols_unit_loadings (Y T : ndarray2) :
  ncols (unit_loadings L Y T) = ncols T.
Proof. reflexivity. Qed.

(** X6. [C] is diagonal: [C[j, j] = (T_j·U_j) / (T_j·T_j)] and the other
    entries are 0. *)
Theorem fit_C_diagonal lX lY g s s' X Y m i j :
  store s !! lX = Some (A2 X) ->
  store s !! lY = Some (A2 Y) ->
  fit L lX lY g s = (Ok m, s') ->
  (i < shape1 (T m))%nat -> (j < shape1 (T m))%nat ->
  entry (C m) i j =
  if (i =? j)%nat
  then (dot (col (T m) i) (col (U m) i) / dot (col (T m) i) (col (T m) i))%F
  else f0.
Proof.
  intros HX HY Hfit Hi Hj.
  apply (fit_ok_value _ _ _ _ _ _ _ _ _ HX HY) in Hfit.
  apply fit_value_ok in Hfit as (_ & _ & ev & W0 & R & _ & _ & ->).
  cbn [C T U] in *.
  set (T0 := scores X (weights W0 g)) in *.
  set (U0 := y_scores Y (unit_loadings L Y T0)) in *.
  unfold shape1 in Hi, Hj.
  assert (HU : ncols U0 = ncols T0) by reflexivity.
  assert (Ha : length (diagonal (matmul (transpose T0) U0)) = ncols T0).
  { rewrite length_diagonal, shape0_matmul, shape0_transpose.
    cbn [matmul ncols]. rewrite HU. lia. }
  assert (Hb : length (t_dot_t T0) = ncols T0).
  { unfold t_dot_t. rewrite length_diagonal, shape0_matmul, shape0_transpose.
    cbn [matmul ncols]. lia. }
  unfold inner.
  rewrite entry_diag by (rewrite length_vdiv; lia).
  destruct (i =? j)%nat; [|reflexivity].
  unfold vdiv. rewrite nth_zip_with by lia.
  unfold t_dot_t.
  rewrite !nth_diagonal
    by (rewrite ?shape0_matmul, ?shape0_transpose; cbn [matmul ncols]; lia).
  rewrite !entry_gram by lia. reflexivity.
Qed.

Lemma PtW_entry lX lY g s s' X Y m j k :
  store s !! lX = Some (A2 X) ->
  store s !! lY = Some (A2 Y) ->
  fit L lX lY g s = (Ok m, s') ->
  wf2 X ->
  (j < shape1 (T m))%nat -> (k < shape1 (T m))%nat ->
  entry (matmul (transpose (P m)) (W m)) j k =
  (dot (col (T m) j) (col (T m) k) / dot (col (T m) j) (col (T m) j))%F.
Proof.
  intros HX HY Hfit Hwf Hj Hk.
  apply (fit_ok_value _ _ _ _ _ _ _ _ _ HX HY) in Hfit.
  apply fit_value_ok in Hfit as (_ & _ & ev & W0 & R & _ & _ & ->).
  cbn [P T W] in *.
  set (Wg := weights W0 g) in *.
  set (T0 := scores X Wg) in *.
  unfold shape1 in Hj, Hk.
  assert (HTW : ncols T0 = ncols Wg) by reflexivity.
  assert (Hb : length (t_dot_t T0) = ncols T0).
  { unfold t_dot_t. rewrite length_diagonal, shape0_matmul, shape0_transpose.
    cbn [matmul ncols]. lia. }
  assert (Hentry : forall k', (k' < ncols T0)%nat ->
            entry (matmul (transpose (x_loadings X T0)) Wg) j k' =
            (dot (col T0 j) (col T0 k') / dot (col T0 j) (col T0 j))%F).
  { intros k' Hk'.
    rewrite entry_gram by (cbn [x_loadings div_rows matmul ncols]; lia).
    unfold x_loadings.
    rewrite col_div_rows;
      [|apply wf2_matmul|cbn [matmul ncols]; exact Hb|cbn [matmul ncols]; exact Hj].
    rewrite dot_div_l. f_equal.
    - rewrite col_matmul by exact Hj. unfold transpose at 1. cbn [rows].
      rewrite dot_adjoint_cols.
      + f_equal. symmetry. unfold T0, scores. apply col_matmul. lia.
      + apply wf2_centred, Hwf.
      + rewrite length_col. unfold T0, scores. apply shape0_matmul.
    - unfold t_dot_t.
      rewrite nth_diagonal
        by (rewrite ?shape0_matmul, ?shape0_transpose; cbn [matmul ncols]; lia).
      apply entry_gram; exact Hj. }
  apply Hentry, Hk.
Qed.

(** X7. [PᵗW = D⁻¹·TᵗT]: its entry [(j, k)] is [(T_j·T_k) / (T_j·T_j)]; so
    its diagonal is 1 wherever a score vector is not null. *)
Theorem fit_PtW_entries lX lY g s s' X Y m j k :
  store s !! lX = Some (A2 X) ->
  store s !! lY = Some (A2 Y) ->
  fit L lX lY g s = (Ok m, s') ->
  wf2 X ->
  (j < shape1 (T m))%nat -> (k < shape1 (T m))%nat ->
  entry (matmul (transpose (P m)) (W m)) j k =
    (dot (col (T m) j) (col (T m) k) / dot (col (T m) j) (col (T m) j))%F /\
  (dot (col (T m) j) (col (T m) j) <> f0 ->
   entry (matmul (transpose (P m)) (W m)) j j = f1).
Proof.
  intros HX HY Hfit Hwf Hj Hk. split.
  - exact (PtW_entry lX lY g s s' X Y m j k HX HY Hfit Hwf Hj Hk).
  - intros Hne.
    rewrite (PtW_entry lX lY g s s' X Y m j j HX HY Hfit Hwf Hj Hj).
    field. exact Hne.
Qed.

(** The columns of [Ac·B] sum to 0 when [Ac] is a centred matrix. *)
Lemma centred_matmul_col_sum (A B : ndarray2) (j : nat) :
  wf2 A -> fnat (shape0 A) <> f0 -> (j < ncols B)%nat ->
  fsum (col (matmul (centred A) B) j) = f0.
Proof.
  intros HwfA HA HjB. rewrite col_matmul by exact HjB.
  rewrite <- dot_ones_r, length_map, dot_comm.
  rewrite <- dot_adjoint_cols;
    [|apply wf2_centred, HwfA|rewrite length_replicate; reflexivity].
  apply dot_zeros_l. apply Forall_forall. intros x Hx.
  apply list_elem_of_In, in_map_iff in Hx. destruct Hx as (c & <- & Hc).
  unfold cols in Hc. apply in_map_iff in Hc. destruct Hc as (i & <- & Hi).
  apply in_seq in Hi.
  replace (length (rows (centred A))) with (length (col (centred A) i))
    by (rewrite length_col; reflexivity).
  rewrite dot_ones_r.
  assert (Hc : ncols (centred A) = ncols A) by reflexivity.
  apply centred_col_sum; [exact HwfA|exact HA|lia].
Qed.

(** X8. When no division by zero happened in the fit (the data has rows,
    no column of [Ycᵗ·T] has norm 0, no score column is null), the scores
    are centred: every column of [T] and of [U] sums to 0. *)
Theorem fit_scores_centred lX lY g s s' X Y m j :
  store s !! lX = Some (A2 X) ->
  store s !! lY = Some (A2 Y) ->
  fit L lX lY g s = (Ok m, s') ->
  wf2 X -> wf2 Y -> nonzero_divisors L X Y m ->
  (j < shape1 (T m))%nat ->
  fsum (col (T m) j) = f0 /\ fsum (col (U m) j) = f0.
Proof.
  intros HX HY Hfit HwfX HwfY [HN _] Hj.
  apply (fit_ok_value _ _ _ _ _ _ _ _ _ HX HY) in Hfit.
  apply fit_value_ok in Hfit as (HNN & _ & ev & W0 & R & _ & _ & ->).
  cbn [T U] in *.
  split.
  - apply centred_matmul_col_sum; assumption.
  - apply centred_matmul_col_sum;
      [exact HwfY | rewrite <- HNN; exact HN | exact Hj].
Qed.

(** X10. The attributes of a returned model satisfy the relations that define
    them, with the [Q] that [self.Q /= ...] left in place:
    [T = Xc·W], [U = Yc·Q], [C = diag((TᵗU)_jj / (TᵗT)_jj)],
    [P = (XcᵗT) / diag(TᵗT)] and [B = W·R·C·Qᵗ] for the inverse [R] the
    library returned for [PᵗW]. *)
Theorem fit_field_relations lX lY g s s' X Y m :
  store s !! lX = Some (A2 X) ->
  store s !! lY = Some (A2 Y) ->
  fit L lX lY g s = (Ok m, s') ->
  X_offset m = mean0 X /\ Y_offset m = mean0 Y /\
  T m = matmul (centred X) (W m) /\
  Q m = div_rows (matmul (transpose (centred Y)) (T m))
                 (norm0 L (matmul (transpose (centred Y)) (T m))) /\
  U m = matmul (centred Y) (Q m) /\
  C m = diag (vdiv (diagonal (matmul (transpose (T m)) (U m)))
                   (diagonal (matmul (transpose (T m)) (T m)))) /\
  P m = div_rows (matmul (transpose (centred X)) (T m))
                 (diagonal (matmul (transpose (T m)) (T m))) /\
  exists R,
    inv L (matmul (transpose (P m)) (W m)) = Some R /\
    B m = matmul (matmul (matmul (W m) R) (C m)) (transpose (Q m)).
Proof.
  intros HX HY Hfit.
  apply (fit_ok_value _ _ _ _ _ _ _ _ _ HX HY) in Hfit.
  apply fit_value_ok in Hfit as (_ & _ & ev & W0 & R & _ & Hinv & ->).
  cbn [X_offset Y_offset T Q U C P B W].
  repeat (split; [reflexivity|]).
  exists R. split; [exact Hinv | reflexivity].
Qed.

Lemma fsum_offset (c : F) (l : vec) :
  fsum (map (fun x => c + x)%F l) = (fnat (length l) * c + fsum l)%F.
Proof.
  induction l as [|a l IH]; cbn [map length fnat fsum foldr].
  - ring.
  - fold (fsum (map (fun x => (c + x)%F) l)). fold (fsum l).
    rewrite IH. ring.
Qed.

Lemma nth_vecmat (v : vec) (B : ndarray2) (j : nat) :
  (j < ncols B)%nat -> nth j (vecmat v B) f0 = dot v (col B j).
Proof.
  intros Hj. unfold vecmat.
  rewrite (nth_map_lt (dot v) (cols B) j [] f0)
    by (rewrite length_cols; exact Hj).
  rewrite nth_cols by exact Hj. reflexivity.
Qed.

(** X14. When no division by zero happened in the fit, on the calibration
    rows themselves the predicted columns have the sums (so the means) of
    the columns of [Y]. *)
Theorem calibration_predictions_sum lX lY g s s' X Y m j :
  store s !! lX = Some (A2 X) ->
  store s !! lY = Some (A2 Y) ->
  fit L lX lY g s = (Ok m, s') ->
  wf2 X -> nonzero_divisors L X Y m -> (j < shape1 Y)%nat ->
  exists R,
    returns (prediction L m (A2 X)) (A2 R) /\
    fsum (col R j) = fsum (col Y j).
Proof.
  intros HX HY Hfit Hwf [HN _] Hj.
  assert (Hm : fitted L m) by (exists s, lX, lY, g, s'; exact Hfit).
  destruct (fitted_shapes L m Hm) as (_ & HYo & HB & _).
  apply (fit_ok_value _ _ _ _ _ _ _ _ _ HX HY) in Hfit.
  apply fit_value_ok in Hfit as (HNN & _ & ev & W0 & R & _ & _ & ->).
  cbn [X_offset Y_offset B X_variables Y_variables] in *.
  set (B0 := matmul _ (transpose _)) in *.
  exists (Arr2 (shape1 Y)
            (map (fun z => vadd (mean0 Y) (vecmat (vsub z (mean0 X)) B0))
                 (rows X))).
  split.
  - exact (prediction_batch_returns L
             (Model _ _ _ _ _ _ _ _ _ _ _ _ _ B0) X eq_refl).
  - unfold col at 1. cbn [rows]. rewrite map_map.
    erewrite map_ext.
    2:{ intros z. unfold vadd.
        rewrite nth_zip_with by (rewrite ?length_vecmat; unfold shape1 in *; lia).
        rewrite nth_vecmat by (unfold shape1 in *; lia). reflexivity. }
    rewrite <- (map_map (fun z => dot (vsub z (mean0 X)) (col B0 j))
                        (fun x => (nth j (mean0 Y) f0 + x)%F)).
    rewrite fsum_offset, length_map.
    rewrite <- (map_map (fun z => vsub z (mean0 X))
                        (fun r => dot r (col B0 j))).
    change (map (fun z => vsub z (mean0 X)) (rows X))
      with (rows (centred X)).
    rewrite <- (col_matmul (centred X) B0 j) by (unfold shape1 in *; lia).
    rewrite centred_matmul_col_sum
      by (try assumption; unfold shape1 in *; lia).
    unfold mean0.
    rewrite (nth_map_lt _ (cols Y) j [] f0)
      by (rewrite length_cols; exact Hj).
    rewrite nth_cols by exact Hj.
    fold (shape0 X). rewrite <- HNN. field. exact HN.
Qed.

(** X1. A returned model has the shapes of the data model ([W] and [P] are
    p x g, [T] and [U] are N x g, [Q] is m x g, [C] is g x g, [B] is
    p x m, the offsets have lengths p and m), provided the eigensolver
    returns a p x p matrix of eigenvectors. *)
Theorem fit_shapes lX lY g s s' X Y m ev W0 :
  store s !! lX = Some (A2 X) ->
  store s !! lY = Some (A2 Y) ->
  fit L lX lY g s = (Ok m, s') ->
  eigh L (eig_input X Y) = Some (ev, W0) ->
  shape0 W0 = shape1 X -> shape1 W0 = shape1 X ->
  data_samples m = shape0 X /\ X_variables m = shape1 X /\
  Y_variables m = shape1 Y /\ components m = g /\
  model_shapes m.
Proof.
  intros HX HY Hfit Hev Hr Hc.
  pose proof (fit_model_shapes L _ _ _ _ _ _ _ _ _ _ HX HY Hfit Hev Hr Hc) as H.
  apply (fit_ok_value _ _ _ _ _ _ _ _ _ HX HY) in Hfit.
  apply fit_value_ok in Hfit as (_ & _ & ev' & W0' & R & _ & _ & ->).
  repeat split; try reflexivity; apply H.
Qed.

(** X9. The columns of [W] are orthonormal whenever the columns the
    eigensolver returns are. *)
Theorem fit_W_orthonormal lX lY g s s' X Y m ev W0 :
  store s !! lX = Some (A2 X) ->
  store s !! lY = Some (A2 Y) ->
  fit L lX lY g s = (Ok m, s') ->
  eigh L (eig_input X Y) = Some (ev, W0) ->
  shape1 W0 = shape1 X ->
  (forall a b, (a < shape1 W0)%nat -> (b < shape1 W0)%nat ->
     dot (col W0 a) (col W0 b) = if (a =? b)%nat then f1 else f0) ->
  forall j k, (j < Z.to_nat g)%nat -> (k < Z.to_nat g)%nat ->
    dot (col (W m) j) (col (W m) k) = if (j =? k)%nat then f1 else f0.
Proof.
  intros HX HY Hfit Hev Hc Horth j k Hj Hk.
  apply (fit_ok_value _ _ _ _ _ _ _ _ _ HX HY) in Hfit.
  apply fit_value_ok in Hfit as (_ & Hg & ev' & W0' & R & Hev' & _ & ->).
  rewrite Hev in Hev'. injection Hev' as <- <-.
  cbn [W]. unfold shape1 in *.
  assert (Hgp : (1 <= g <= Z.of_nat (ncols W0))%Z) by (rewrite Hc; lia).
  rewrite !col_weights by assumption.
  rewrite Horth by lia.
  destruct (Nat.eqb_spec j k) as [->|Hne].
  - rewrite Nat.eqb_refl. reflexivity.
  - destruct (Nat.eqb_spec (ncols W0 - 1 - j) (ncols W0 - 1 - k)); [lia|].
    reflexivity.
Qed.

End FitMore.

(** ** More on the prediction methods *)

Section PredictMore.
Context {Sc : Scalar}.
Variable L : linalg.

Add Field Ffield_pm : F_field.

Local Abbreviation zero_vec := (Forall (fun x : F => x = f0)).

Lemma fitted_Q_rows m : fitted L m -> shape0 (Q m) = Y_variables m.
Proof.
  intros (s & lX & lY & g & s' & Hfit).
  destruct (fit_ok_store _ _ _ _ _ _ _ Hfit) as (X & Y & HX & HY).
  apply (fit_ok_value _ _ _ _ _ _ _ _ _ HX HY) in Hfit.
  apply fit_value_ok in Hfit as (_ & _ & ev & W0 & R & _ & _ & ->).
  cbn [Q Y_variables]. unfold unit_loadings, raw_loadings.
  rewrite shape0_div_rows, shape0_matmul, shape0_transpose. reflexivity.
Qed.

Lemma vsub_self (z w : vec) : z = w -> zero_vec (vsub z w).
Proof.
  intros <-. induction z as [|a z IH]; [constructor|].
  unfold vsub. cbn [zip_with]. constructor; [ring | exact IH].
Qed.

Lemma vecmat_zero (v : vec) (A : ndarray2) :
  zero_vec v -> zero_vec (vecmat v A).
Proof.
  intros Hv. unfold vecmat. apply Forall_forall. intros x Hx.
  apply list_elem_of_In, in_map_iff in Hx. destruct Hx as (c & <- & _).
  apply dot_zeros_l, Hv.
Qed.

Lemma vadd_zero_r (y zs : vec) :
  zero_vec zs -> length zs = length y -> vadd y zs = y.
Proof.
  intros Hz. revert y. induction Hz as [|x zs -> _ IH]; intros [|a y] H;
    cbn in H; try lia; [reflexivity|].
  unfold vadd. cbn [zip_with]. fold (vadd y zs). rewrite IH by lia.
  f_equal. ring.
Qed.

Lemma vsub_zero_scaled (x p : vec) :
  zero_vec x -> zero_vec (vsub x (vscale f0 p)).
Proof.
  intros Hx. revert p. induction Hx as [|a x -> _ IH]; intros [|b p];
    try constructor.
  - ring.
  - apply IH.
Qed.

Lemma deflated_zero m n x :
  zero_vec x ->
  zero_vec (deflated m n x).1 /\ zero_vec (deflated m n x).2.
Proof.
  intros Hx. induction n as [|n [IH1 IH2]]; cbn [deflated].
  - split; [constructor | exact Hx].
  - destruct (deflated m n x) as [ts xk]. cbn [fst snd] in *.
    assert (Hs : dot xk (col (W m) n) = f0) by (apply dot_zeros_l, IH2).
    rewrite Hs. split.
    + apply Forall_app. split; [exact IH1 | repeat constructor].
    + apply vsub_zero_scaled, IH2.
Qed.

(** X11. For a model fitted to [X] and [Y] without a division by zero (so
    that [W], [P], [C], [Q] and [B] hold numbers), at the centroid of the
    calibration data both methods return the centroid of the outputs:
    [prediction(X_offset) = Y_offset]. *)
Theorem prediction_at_centroid lX lY g s s' X Y m :
  store s !! lX = Some (A2 X) ->
  store s !! lY = Some (A2 Y) ->
  fit L lX lY g s = (Ok m, s') ->
  nonzero_divisors L X Y m ->
  returns (prediction L m (A1 (X_offset m))) (A1 (Y_offset m)) /\
  returns (prediction_iterative L m (A1 (X_offset m))) (A1 (Y_offset m)).
Proof.
  intros _ _ Hfit _.
  assert (Hm : fitted L m) by (exists s, lX, lY, g, s'; exact Hfit).
  destruct (fitted_shapes L m Hm) as (HX & HY & HB & _).
  pose proof (fitted_Q_rows m Hm) as HQ.
  split.
  - pose proof (prediction_row_returns L m (X_offset m) HX) as H.
    rewrite vadd_zero_r in H; [exact H| |].
    + apply vecmat_zero, vsub_self. reflexivity.
    + rewrite length_vecmat. congruence.
  - pose proof (prediction_iterative_row_returns L m (X_offset m) HX) as H.
    unfold iterative in H. rewrite vadd_zero_r in H; [exact H| |].
    + apply vecmat_zero, vecmat_zero, deflated_zero, vsub_self.
      reflexivity.
    + rewrite length_vecmat. cbn [transpose ncols]. congruence.
Qed.






(** X13. For a fitted model [prediction_iterative] returns a row of length
    [m] for a row and an array of shape [(k, m)] for a batch of [k]
    rows. *)
Theorem prediction_iterative_shape m :
  fitted L m ->
  (forall z, length z = X_variables m ->
     exists y, returns (prediction_iterative L m (A1 z)) (A1 y) /\
               length y = Y_variables m) /\
  (forall Zb, shape1 Zb = X_variables m ->
     exists Yb, returns (prediction_iterative L m (A2 Zb)) (A2 Yb) /\
                has_shape Yb (shape0 Zb) (Y_variables m)).
Proof.
  intros Hm. destruct (fitted_shapes L m Hm) as (_ & HY & _ & _).
  pose proof (fitted_Q_rows m Hm) as HQ.
  assert (Hlen : forall z, length (iterative m z) = Y_variables m).
  { intros z. unfold iterative, vadd.
    rewrite length_zip_with, length_vecmat. cbn [transpose ncols]. lia. }
  split.
  - intros z Hz. exists (iterative m z).
    split; [apply prediction_iterative_row_returns, Hz | apply Hlen].
  - intros Zb Hp.
    exists (Arr2 (Y_variables m) (map (iterative m) (rows Zb))).
    split; [apply prediction_iterative_batch_returns, Hp|].
    split; [unfold shape0; cbn [rows]; apply length_map|].
    split; [reflexivity|].
    unfold wf2. cbn [rows ncols]. apply Forall_forall. intros r Hr.
    apply list_elem_of_In, in_map_iff in Hr. destruct Hr as (z & <- & _).
    apply Hlen.
Qed.

End PredictMore.

(** ** When the two prediction methods agree *)

Section Agreement.
Context {Sc : Scalar}.
Variable L : linalg.

Add Field Ffield_ag : F_field.
















End Agreement.

(** ** Further properties on concrete data *)

Lemma fnat3_nonzero : fnat (shape0 Exact.X3) <> f0.
Proof. intros E. apply (f_equal this) in E. vm_compute in E. discriminate E. Qed.

Lemma X3_wf : wf2 Exact.X3.
Proof. unfold wf2. vm_compute. repeat constructor. Qed.

Lemma Y3_wf : wf2 Exact.Y3.
Proof. unfold wf2. vm_compute. repeat constructor. Qed.

Lemma eig3_rows : shape0 Exact.eig3.2 = shape1 Exact.X3.
Proof. vm_compute. reflexivity. Qed.

Lemma eig3_cols : shape1 Exact.eig3.2 = shape1 Exact.X3.
Proof. vm_compute. reflexivity. Qed.

Lemma model3_T_cols j : (j < 2)%nat -> (j < shape1 (T Exact.model3))%nat.
Proof.
  intros Hj. replace (shape1 (T Exact.model3)) with 2%nat; [exact Hj|].
  vm_compute. reflexivity.
Qed.

Lemma model3_nonzero_divisors :
  nonzero_divisors Exact.lib Exact.X3 Exact.Y3 Exact.model3.
Proof.
  split; [exact fnat3_nonzero|].
  assert (Hc : shape1 (T Exact.model3) = 2%nat) by (vm_compute; reflexivity).
  intros j Hj. rewrite Hc in Hj.
  destruct j as [|[|j]]; [| |lia];
    (split; intros E; apply (f_equal this) in E; vm_compute in E;
     discriminate E).
Qed.

(** [model3] has the shapes of the data model for N = 3, p = 2, m = 2 and
    g = 2. *)
Lemma fit_shapes_witness :
  data_samples Exact.model3 = 3%nat /\ X_variables Exact.model3 = 2%nat /\
  Y_variables Exact.model3 = 2%nat /\ components Exact.model3 = 2%Z /\
  model_shapes Exact.model3.
Proof.
  exact (fit_shapes Exact.lib 1%positive 2%positive 2
           (Exact.caller Exact.X3 Exact.Y3) _ Exact.X3 Exact.Y3 Exact.model3
           Exact.eig3.1 Exact.eig3.2 (caller_X _ _) (caller_Y _ _)
           (fit_caller _ _ _ _ model3_value) eig3_value eig3_rows eig3_cols).
Defined.

Lemma fitted_counts_witness :
  (1 <= components Exact.model3 <= Z.of_nat (max_rank Exact.model3))%Z.
Proof.
  exact (proj1 (proj2 (fitted_counts Exact.lib Exact.model3 model3_fitted))).
Defined.

Lemma valid_parameters_X3_Y3 :
  shape0 Exact.X3 = shape0 Exact.Y3 /\
  (1 <= 2 <= Z.of_nat (Nat.min (shape0 Exact.X3) (shape1 Exact.X3)))%Z.
Proof. split; [reflexivity|]. vm_compute. split; discriminate. Qed.

(** Fitting [X3] and [Y3] with two components fails just when a solver
    fails. *)
Lemma fit_solver_failure_witness :
  (fit Exact.lib 1%positive 2%positive 2
       (Exact.caller Exact.X3 Exact.Y3)).1 = Err LinAlgError <->
  eigh Exact.lib (eig_input Exact.X3 Exact.Y3) = None \/
  exists ev W0,
    eigh Exact.lib (eig_input Exact.X3 Exact.Y3) = Some (ev, W0) /\
    inv Exact.lib (PtW Exact.X3 (weights W0 2)) = None.
Proof.
  exact (proj2 (fit_solver_failure Exact.lib 1%positive 2%positive 2
                  (Exact.caller Exact.X3 Exact.Y3) Exact.X3 Exact.Y3
                  (caller_X _ _) (caller_Y _ _)
                  (proj1 valid_parameters_X3_Y3)
                  (proj2 valid_parameters_X3_Y3))).
Defined.

Lemma centred_columns_sum_to_zero_witness :
  fsum (col (centred Exact.X3) 0) = f0.
Proof.
  assert (Hj : (0 < ncols Exact.X3)%nat)
    by (apply Nat.ltb_lt; vm_compute; reflexivity).
  exact (proj2 (centred_columns_sum_to_zero Exact.X3 0 X3_wf fnat3_nonzero Hj)).
Defined.

Lemma eig_input_symmetric_witness :
  entry (eig_input Exact.X3 Exact.Y3) 0 1 =
  entry (eig_input Exact.X3 Exact.Y3) 1 0.
Proof.
  assert (H0 : (0 < shape1 Exact.X3)%nat)
    by (apply Nat.ltb_lt; vm_compute; reflexivity).
  assert (H1 : (1 < shape1 Exact.X3)%nat)
    by (apply Nat.ltb_lt; vm_compute; reflexivity).
  exact (proj2 (eig_input_symmetric Exact.X3 Exact.Y3) 0%nat 1%nat H0 H1).
Defined.

(** In [model3], [C] is [diag(3, 3/2)]. *)
Lemma fit_C_diagonal_witness :
  entry (C Exact.model3) 0 1 = f0 /\
  entry (C Exact.model3) 1 1 =
  (dot (col (T Exact.model3) 1) (col (U Exact.model3) 1) /
   dot (col (T Exact.model3) 1) (col (T Exact.model3) 1))%F.
Proof.
  split.
  - exact (fit_C_diagonal Exact.lib 1%positive 2%positive 2
             (Exact.caller Exact.X3 Exact.Y3) _ Exact.X3 Exact.Y3
             Exact.model3 0%nat 1%nat (caller_X _ _) (caller_Y _ _)
             (fit_caller _ _ _ _ model3_value)
             (model3_T_cols 0 ltac:(lia)) (model3_T_cols 1 ltac:(lia))).
  - exact (fit_C_diagonal Exact.lib 1%positive 2%positive 2
             (Exact.caller Exact.X3 Exact.Y3) _ Exact.X3 Exact.Y3
             Exact.model3 1%nat 1%nat (caller_X _ _) (caller_Y _ _)
             (fit_caller _ _ _ _ model3_value)
             (model3_T_cols 1 ltac:(lia)) (model3_T_cols 1 ltac:(lia))).
Defined.

(** In [model3], [PᵗW] is [[1, 1/2], [1/2, 1]]. *)
Lemma fit_PtW_entries_witness :
  entry (matmul (transpose (P Exact.model3)) (W Exact.model3)) 0 1 =
  (dot (col (T Exact.model3) 0) (col (T Exact.model3) 1) /
   dot (col (T Exact.model3) 0) (col (T Exact.model3) 0))%F.
Proof.
  exact (proj1 (fit_PtW_entries Exact.lib 1%positive 2%positive 2
                  (Exact.caller Exact.X3 Exact.Y3) _ Exact.X3 Exact.Y3
                  Exact.model3 0%nat 1%nat (caller_X _ _) (caller_Y _ _)
                  (fit_caller _ _ _ _ model3_value) X3_wf
                  (model3_T_cols 0 ltac:(lia)) (model3_T_cols 1 ltac:(lia)))).
Defined.

Lemma fit_scores_centred_witness :
  fsum (col (T Exact.model3) 0) = f0 /\ fsum (col (U Exact.model3) 0) = f0.
Proof.
  exact (fit_scores_centred Exact.lib 1%positive 2%positive 2
           (Exact.caller Exact.X3 Exact.Y3) _ Exact.X3 Exact.Y3
           Exact.model3 0%nat (caller_X _ _) (caller_Y _ _)
           (fit_caller _ _ _ _ model3_value) X3_wf Y3_wf
           model3_nonzero_divisors (model3_T_cols 0 ltac:(lia))).
Defined.

Lemma eig3_orthonormal a b :
  (a < shape1 Exact.eig3.2)%nat -> (b < shape1 Exact.eig3.2)%nat ->
  dot (col Exact.eig3.2 a) (col Exact.eig3.2 b) =
  if (a =? b)%nat then f1 else f0.
Proof.
  rewrite eig3_cols. change (shape1 Exact.X3) with 2%nat. intros Ha Hb.
  destruct a as [|[|a]]; [| |lia]; destruct b as [|[|b]]; try lia;
    apply Qc_is_canon; vm_compute; reflexivity.
Qed.

Lemma fit_W_orthonormal_witness :
  dot (col (W Exact.model3) 0) (col (W Exact.model3) 1) = f0 /\
  dot (col (W Exact.model3) 1) (col (W Exact.model3) 1) = f1.
Proof.
  pose proof (fit_W_orthonormal Exact.lib 1%positive 2%positive 2
                (Exact.caller Exact.X3 Exact.Y3) _ Exact.X3 Exact.Y3
                Exact.model3 Exact.eig3.1 Exact.eig3.2
                (caller_X _ _) (caller_Y _ _)
                (fit_caller _ _ _ _ model3_value) eig3_value eig3_cols
                eig3_orthonormal) as H.
  split.
  - exact (H 0%nat 1%nat ltac:(cbn; lia) ltac:(cbn; lia)).
  - exact (H 1%nat 1%nat ltac:(cbn; lia) ltac:(cbn; lia)).
Defined.

Lemma prediction_at_centroid_witness :
  returns (prediction Exact.lib Exact.model3 (A1 (X_offset Exact.model3)))
          (A1 (Y_offset Exact.model3)) /\
  returns (prediction_iterative Exact.lib Exact.model3
             (A1 (X_offset Exact.model3)))
          (A1 (Y_offset Exact.model3)).
Proof.
  exact (prediction_at_centroid Exact.lib 1%positive 2%positive 2
           (Exact.caller Exact.X3 Exact.Y3) _ Exact.X3 Exact.Y3
           Exact.model3 (caller_X _ _) (caller_Y _ _)
           (fit_caller _ _ _ _ model3_value) model3_nonzero_divisors).
Defined.

Lemma z_row_length : length Exact.z_row = X_variables Exact.model3.
Proof. vm_compute. reflexivity. Qed.


Lemma prediction_iterative_shape_witness :
  exists y,
    returns (prediction_iterative Exact.lib Exact.model3 (A1 Exact.z_row))
            (A1 y) /\
    length y = Y_variables Exact.model3.
Proof.
  exact (proj1 (prediction_iterative_shape Exact.lib Exact.model3
                  model3_fitted) Exact.z_row z_row_length).
Defined.











Lemma fit_field_relations_witness :
  T Exact.model3 = matmul (centred Exact.X3) (W Exact.model3) /\
  U Exact.model3 = matmul (centred Exact.Y3) (Q Exact.model3).
Proof.
  destruct (fit_field_relations Exact.lib 1%positive 2%positive 2
              (Exact.caller Exact.X3 Exact.Y3) _ Exact.X3 Exact.Y3
              Exact.model3 (caller_X _ _) (caller_Y _ _)
              (fit_caller _ _ _ _ model3_value))
    as (_ & _ & HT & _ & HU & _).
  split; [exact HT | exact HU].
Defined.

Lemma calibration_predictions_sum_witness :
  exists R,
    returns (prediction Exact.lib Exact.model3 (A2 Exact.X3)) (A2 R) /\
    fsum (col R 0) = fsum (col Exact.Y3 0).
Proof.
  assert (Hj : (0 < shape1 Exact.Y3)%nat)
    by (apply Nat.ltb_lt; vm_compute; reflexivity).
  exact (calibration_predictions_sum Exact.lib 1%positive 2%positive 2
           (Exact.caller Exact.X3 Exact.Y3) _ Exact.X3 Exact.Y3
           Exact.model3 0%nat (caller_X _ _) (caller_Y _ _)
           (fit_caller _ _ _ _ model3_value) X3_wf model3_nonzero_divisors
           Hj).
Defined.







